(** * Lumina Macro Studio: normalizer, playback scheduler, import and
      generation gateway

    A shallow embedding of
    - [services/geminiService.ts] (src/unnamed/part_002): [generateId],
      [sanitize], [generateMacroFromPrompt];
    - [components/MacroVisualizer.tsx] (src/unnamed/part_000):
      [normalizeKey], [stop], [reset], [play], [runStep];
    - [App.tsx] (src/unnamed/part_001): [processImport], [updateMacro],
      [handleAiGenerate], and the declarations of [types.ts] at its end:
      [ActionType], [LoopMode], [MacroAction], [Macro].
    Line numbers in the comments are those of these files.

    Scope of the model.
    - JavaScript strings are modelled by [string]; [toUpperCase],
      [toLowerCase], [trim] and the white space skipped by [parseInt] are
      exact on ASCII text (other bytes are left alone).
    - JavaScript numbers are modelled by [number]: [NaN] or an integer.  The
      response schema of the gateway declares every numeric field INTEGER;
      fractions and integers beyond 2^53 are outside the model.
    - React state setters are applied at once, in program order, and an
      [await] completes before anything else happens.
    - [Math.random], [JSON.parse], the generation service and the
      credential belong to the host, a parameter of the functions that use
      them. *)

From Stdlib Require Import ZArith Ascii String List Decimal DecimalString DecimalPos.
From stdpp Require Import base tactics list strings gmap.
Import ListNotations.
Local Open Scope string_scope.
Local Open Scope Z_scope.

(** ** JavaScript strings *)

Module JsString.

Definition upper_char (c : ascii) : ascii :=
  let n := nat_of_ascii c in
  if ((97 <=? n) && (n <=? 122))%nat then ascii_of_nat (n - 32) else c.

Definition lower_char (c : ascii) : ascii :=
  let n := nat_of_ascii c in
  if ((65 <=? n) && (n <=? 90))%nat then ascii_of_nat (n + 32) else c.

(** [String.prototype.toUpperCase] *)
Fixpoint toUpperCase (s : string) : string :=
  match s with
  | EmptyString => EmptyString
  | String c s' => String (upper_char c) (toUpperCase s')
  end.

(** [String.prototype.toLowerCase] *)
Fixpoint toLowerCase (s : string) : string :=
  match s with
  | EmptyString => EmptyString
  | String c s' => String (lower_char c) (toLowerCase s')
  end.

(** [String.prototype.substr(start, length)] for non-negative arguments:
    it stops at the end of the string. *)
Definition substr (start len : nat) (s : string) : string :=
  String.substring start len s.

(** [!s] is false exactly for the non-empty strings. *)
Definition truthy (s : string) : bool :=
  match s with EmptyString => false | String _ _ => true end.

End JsString.

(** ** MacroVisualizer.tsx: key labels *)

Import JsString.

(** [normalizeKey], lines 57-73. *)
Definition normalizeKey (k : string) : string :=
  if negb (truthy k) then ""
  else
    let u := toUpperCase k in
    if String.eqb u " " then "SPACE"
    else if String.eqb u "CONTROL" then "CTRL"
    else if String.eqb u "RETURN" then "ENTER"
    else if String.eqb u "ESCAPE" then "ESC"
    else if String.eqb u "DELETE" then "DEL"
    else if String.eqb u "INSERT" then "INS"
    else if String.eqb u "ARROWUP" then "UP"
    else if String.eqb u "ARROWDOWN" then "DOWN"
    else if String.eqb u "ARROWLEFT" then "LEFT"
    else if String.eqb u "ARROWRIGHT" then "RIGHT"
    else if String.eqb u "PAGEUP" then "PGUP"
    else if String.eqb u "PAGEDOWN" then "PGDN"
    else u.

(** The canonicalization table as the specification words it: raw token
    (lower case) and canonical label.  The raw token written "space" in the
    table is the space character. *)
Definition canonical_table : list (string * string) :=
  [ (" ", "SPACE"); ("control", "CTRL"); ("return", "ENTER");
    ("escape", "ESC"); ("delete", "DEL"); ("insert", "INS");
    ("arrowup", "UP"); ("arrowdown", "DOWN"); ("arrowleft", "LEFT");
    ("arrowright", "RIGHT"); ("pageup", "PGUP"); ("pagedown", "PGDN") ].

Fixpoint table_lookup (t : list (string * string)) (k : string) : option string :=
  match t with
  | [] => None
  | (raw, label) :: t' => if String.eqb raw k then Some label else table_lookup t' k
  end.

(** The specification's reading of the table: look the token up without
    regard to case; a token that is not listed is upper-cased; the empty
    string stays empty. *)
Definition spec_canonical_label (k : string) : string :=
  match table_lookup canonical_table (toLowerCase k) with
  | Some label => label
  | None => toUpperCase k
  end.

(** ** JavaScript values *)

(** A JavaScript number: an integer or [NaN]. *)
Inductive number : Type :=
| NaN
| Int (z : Z).

(** The values that [JSON.parse] produces, together with [undefined] (what
    reading an absent property gives) and [NaN]. *)
#[warnings="-register-all"] Inductive JVal : Type :=
| JUndefined
| JNull
| JBool (b : bool)
| JNum (n : number)
| JStr (s : string)
| JArr (items : list JVal)
| JObj (fields : list (string * JVal)).

(** What a [throw] carries. *)
Inductive Exn : Type :=
| TypeError
| ApiKeyMissing                (* new Error("API Key is missing.") *)
| TransportError               (* generateContent rejected *)
| MissingFields (nth : nat).   (* 第 nth 个宏配置缺少必要字段 (id, name, triggerKey, actions) *)

Inductive Result (A : Type) : Type :=
| Ok (a : A)
| Throw (e : Exn).
Arguments Ok {A} a.
Arguments Throw {A} e.

Module Js.

Definition number_truthy (n : number) : bool :=
  match n with
  | NaN => false
  | Int z => negb (z =? 0)
  end.

(** ToBoolean: [undefined], [null], [false], [0], [NaN] and [""] are
    falsy, everything else (every array and object too) is truthy. *)
Definition truthy (v : JVal) : bool :=
  match v with
  | JUndefined | JNull => false
  | JBool b => b
  | JNum n => number_truthy n
  | JStr s => JsString.truthy s
  | JArr _ | JObj _ => true
  end.

(** [v || d] *)
Definition or_else (v d : JVal) : JVal := if truthy v then v else d.

(** [n || d] on numbers *)
Definition number_or (n d : number) : number := if number_truthy n then n else d.

Fixpoint assoc (k : string) (fields : list (string * JVal)) : JVal :=
  match fields with
  | [] => JUndefined
  | (k', v) :: rest => if String.eqb k' k then v else assoc k rest
  end.

(** [o.k] for the property names this program reads ([type], [button],
    [key], [duration], [scrollAmount], [actionState], [x], [y],
    [absolute], [id], [name], [triggerKey], [actions], [releaseActions],
    [mainSequence], [releaseSequence]): an own property of an object, a
    [TypeError] on [null] and [undefined], and [undefined] on every other
    value, none of whose prototypes has a property of these names. *)
Definition get (o : JVal) (k : string) : Result JVal :=
  match o with
  | JUndefined | JNull => Throw TypeError
  | JObj fields => Ok (assoc k fields)
  | JBool _ | JNum _ | JStr _ | JArr _ => Ok JUndefined
  end.

(** [v.toLowerCase()]: only strings have the method. *)
Definition toLowerCase (v : JVal) : Result string :=
  match v with
  | JStr s => Ok (JsString.toLowerCase s)
  | _ => Throw TypeError
  end.

(** [v === s] against a string literal *)
Definition is_string (v : JVal) (s : string) : bool :=
  match v with
  | JStr s' => String.eqb s' s
  | _ => false
  end.

(** [Array.isArray(v)] *)
Definition isArray (v : JVal) : bool :=
  match v with JArr _ => true | _ => false end.

Fixpoint join (sep : string) (l : list string) : string :=
  match l with
  | [] => ""
  | [s] => s
  | s :: rest => s +:+ sep +:+ join sep rest
  end.

(** [String(v)].  An integer prints as its decimal digits; an array prints
    its elements separated by commas, [null] and [undefined] elements as
    the empty string. *)
Fixpoint String_ (v : JVal) : string :=
  match v with
  | JUndefined => "undefined"
  | JNull => "null"
  | JBool true => "true"
  | JBool false => "false"
  | JNum NaN => "NaN"
  | JNum (Int z) => NilZero.string_of_int (Z.to_int z)
  | JStr s => s
  | JArr items =>
      join "," (List.map (fun e => match e with
                                   | JUndefined | JNull => ""
                                   | _ => String_ e
                                   end) items)
  | JObj _ => "[object Object]"
  end.

(** White space skipped by [parseInt] and removed by [trim]: TAB, LF, VT,
    FF, CR and SPACE. *)
Definition is_space (c : ascii) : bool :=
  let n := nat_of_ascii c in
  (((9 <=? n) && (n <=? 13)) || (n =? 32))%nat.

Fixpoint skip_space (s : string) : string :=
  match s with
  | EmptyString => EmptyString
  | String c s' => if is_space c then skip_space s' else s
  end.

Definition digit (c : ascii) : option (uint -> uint) :=
  match c with
  | "0"%char => Some D0 | "1"%char => Some D1 | "2"%char => Some D2
  | "3"%char => Some D3 | "4"%char => Some D4 | "5"%char => Some D5
  | "6"%char => Some D6 | "7"%char => Some D7 | "8"%char => Some D8
  | "9"%char => Some D9
  | _ => None
  end.

(** The longest run of decimal digits at the head of [s]. *)
Fixpoint read_digits (s : string) : uint :=
  match s with
  | EmptyString => Nil
  | String c s' =>
      match digit c with
      | Some d => d (read_digits s')
      | None => Nil
      end
  end.

(** [parseInt(s, 10)]: skip white space, read an optional sign, read
    digits up to the first character that is not one; [NaN] when there is
    no digit. *)
Definition parseInt (s : string) : number :=
  let s1 := skip_space s in
  let '(negative, s2) :=
    match s1 with
    | String "-"%char rest => (true, rest)
    | String "+"%char rest => (false, rest)
    | _ => (false, s1)
    end in
  match read_digits s2 with
  | Nil => NaN
  | ds => Int (if negative then - Z.of_uint ds else Z.of_uint ds)
  end.

(** [s.trim()] *)
Definition trim (s : string) : string :=
  String.rev (skip_space (String.rev (skip_space s))).

(** [n > m] on numbers; false when [n] is [NaN]. *)
Definition gt (n : number) (m : Z) : bool :=
  match n with
  | NaN => false
  | Int z => m <? z
  end.

(** [Math.max(m, n)] *)
Definition Math_max (m : Z) (n : number) : number :=
  match n with
  | NaN => NaN
  | Int z => Int (Z.max m z)
  end.

End Js.

(** ** types.ts *)

Module ActionType.
Definition CLICK : string := "CLICK".
Definition DELAY : string := "DELAY".
Definition MOVE : string := "MOVE".
Definition KEY : string := "KEY".
Definition SCROLL : string := "SCROLL".
End ActionType.

(** [interface MacroAction].  A field marked [?] in the interface is an
    [option]: [None] when the object has no such property.  The fields that
    [sanitize] fills from the candidate without a check ([type], [x], [y],
    [absolute]) hold whatever value the candidate had. *)
Module MacroAction.
Record t : Type := mk {
  id : string;
  type : JVal;
  actionState : option string;
  button : option string;
  duration : option number;
  x : option JVal;
  y : option JVal;
  absolute : option JVal;
  key : option string;
  scrollAmount : option number
}.
End MacroAction.

(** ** The host: environment, service, parser and random source *)

Record Host : Type := {
  (** [process.env.API_KEY] *)
  API_KEY : option string;
  (** [await ai.models.generateContent(...)] for a prompt: the promise is
      rejected, or fulfilled with a response whose [text] may be absent *)
  generateContent : string -> Result (option string);
  (** [JSON.parse]: [None] when it throws a SyntaxError *)
  JSON_parse : string -> option JVal;
  (** [Math.random().toString(36)] at the k-th call of [Math.random] *)
  Math_random_toString36 : nat -> string
}.

(** ** Computations that may throw and that draw random numbers

    The state is the number of calls of [Math.random] made so far. *)

#[export] Instance Result_ret : MRet Result := fun _ a => Ok a.
#[export] Instance Result_bind : MBind Result :=
  fun _ _ f r => match r with Ok a => f a | Throw e => Throw e end.

Definition M (A : Type) : Type := nat -> Result (A * nat).

#[export] Instance M_ret : MRet M := fun _ a n => Ok (a, n).
#[export] Instance M_bind : MBind M :=
  fun _ _ f m n => match m n with Ok (a, n') => f a n' | Throw e => Throw e end.

Definition lift {A : Type} (r : Result A) : M A :=
  fun n => match r with Ok a => Ok (a, n) | Throw e => Throw e end.

(** ** geminiService.ts *)

(** [generateId], line 5: [Math.random().toString(36).substr(2, 9)]. *)
Definition generateId (host : Host) : M string :=
  fun n => Ok (substr 2 9 (Math_random_toString36 host n), S n).

(** [v ? parseInt(String(v), 10) : 0], lines 126 and 127. *)
Definition int_or_zero (v : JVal) : number :=
  if Js.truthy v then Js.parseInt (Js.String_ v) else Int 0.

(** [(v || fallback).toLowerCase()], lines 124, 125 and 128. *)
Definition lower_or (v : JVal) (fallback : string) : Result string :=
  Js.toLowerCase (Js.or_else v (JStr fallback)).

(** [processed.push(action)] *)
Definition push (processed : list MacroAction.t) (action : MacroAction.t)
  : list MacroAction.t :=
  processed ++ [action].

(** The synthetic Delay literal [{ id, type: ActionType.DELAY, duration }],
    lines 147-151 and 168-172. *)
Definition delay_literal (id : string) (duration : number) : MacroAction.t :=
  {| MacroAction.id := id;
     MacroAction.type := JStr ActionType.DELAY;
     MacroAction.actionState := None;
     MacroAction.button := None;
     MacroAction.duration := Some duration;
     MacroAction.x := None;
     MacroAction.y := None;
     MacroAction.absolute := None;
     MacroAction.key := None;
     MacroAction.scrollAmount := None |}.

(** One iteration of the loop of [sanitize], lines 122-198. *)
Definition sanitize_body (host : Host) (a : JVal) (processed : list MacroAction.t)
  : M (list MacroAction.t) :=
  type ← lift (Js.get a "type");
  button ← lift (v ← Js.get a "button"; lower_or v "left");
  key ← lift (v ← Js.get a "key"; lower_or v "");
  duration ← lift (v ← Js.get a "duration"; mret (int_or_zero v));
  scrollAmount ← lift (v ← Js.get a "scrollAmount"; mret (int_or_zero v));
  actionState ← lift (v ← Js.get a "actionState"; lower_or v "click");
  (* 1. Explicit Down/Up *)
  if String.eqb actionState "down" || String.eqb actionState "up" then
    id1 ← generateId host;
    ax ← lift (Js.get a "x");
    ay ← lift (Js.get a "y");
    aabsolute ← lift (Js.get a "absolute");
    let processed :=
      push processed
        {| MacroAction.id := id1;
           MacroAction.type := type;
           MacroAction.button := Some button;
           MacroAction.key := Some key;
           MacroAction.actionState := Some actionState;
           MacroAction.duration := Some (Int 0);
           MacroAction.x := Some (Js.or_else ax (JNum (Int 0)));
           MacroAction.y := Some (Js.or_else ay (JNum (Int 0)));
           MacroAction.absolute := Some (Js.or_else aabsolute (JBool false));
           MacroAction.scrollAmount := Some scrollAmount |} in
    if Js.gt duration 0 && String.eqb actionState "down" then
      id2 ← generateId host;
      mret (push processed (delay_literal id2 duration))
    else mret processed
  (* 2. "Lazy" Hold Fallback *)
  else if (Js.is_string type "CLICK" || Js.is_string type "KEY") && Js.gt duration 10 then
    id1 ← generateId host;
    let processed :=
      push processed
        {| MacroAction.id := id1;
           MacroAction.type := type;
           MacroAction.button := Some button;
           MacroAction.key := Some key;
           MacroAction.actionState := Some "down";
           MacroAction.duration := Some (Int 0);
           MacroAction.x := Some (JNum (Int 0));
           MacroAction.y := Some (JNum (Int 0));
           MacroAction.absolute := Some (JBool false);
           MacroAction.scrollAmount := Some (Int 0) |} in
    id2 ← generateId host;
    let processed := push processed (delay_literal id2 duration) in
    id3 ← generateId host;
    mret (push processed
        {| MacroAction.id := id3;
           MacroAction.type := type;
           MacroAction.button := Some button;
           MacroAction.key := Some key;
           MacroAction.actionState := Some "up";
           MacroAction.duration := Some (Int 0);
           MacroAction.x := Some (JNum (Int 0));
           MacroAction.y := Some (JNum (Int 0));
           MacroAction.absolute := Some (JBool false);
           MacroAction.scrollAmount := Some (Int 0) |})
  (* 3. Standard Atomic Action *)
  else
    id1 ← generateId host;
    ax ← lift (Js.get a "x");
    ay ← lift (Js.get a "y");
    aabsolute ← lift (Js.get a "absolute");
    mret (push processed
        {| MacroAction.id := id1;
           MacroAction.type := type;
           MacroAction.duration :=
             Some (if Js.is_string type "DELAY"
                   then Js.number_or duration (Int 100) else Int 0);
           MacroAction.x := Some (Js.or_else ax (JNum (Int 0)));
           MacroAction.y := Some (Js.or_else ay (JNum (Int 0)));
           MacroAction.button := Some button;
           MacroAction.absolute := Some (Js.or_else aabsolute (JBool false));
           MacroAction.key := Some key;
           MacroAction.actionState := Some "click";
           MacroAction.scrollAmount := Some scrollAmount |}).

(** [for (const a of list) { ... }], lines 122-198. *)
Fixpoint sanitize_loop (host : Host) (items : list JVal) (processed : list MacroAction.t)
  : M (list MacroAction.t) :=
  match items with
  | [] => mret processed
  | a :: rest =>
      processed' ← sanitize_body host a processed;
      sanitize_loop host rest processed'
  end.

(** [sanitize], lines 117-201. *)
Definition sanitize (host : Host) (list_ : JVal) : M (list MacroAction.t) :=
  match list_ with
  | JArr items => sanitize_loop host items []
  | _ => mret []
  end.

(** [generateMacroFromPrompt], lines 7-212.  The two results are
    [mainActions] and [releaseActions]. *)
Definition generateMacroFromPrompt (host : Host) (prompt : string)
  : M (list MacroAction.t * list MacroAction.t) :=
  match API_KEY host with
  | None | Some EmptyString => lift (Throw ApiKeyMissing)
  | Some _ =>
      response_text ← lift (generateContent host prompt);
      match response_text with
      | None | Some EmptyString => mret ([], [])
      | Some text =>
          match JSON_parse host text with
          | None => mret ([], [])
          | Some result =>
              mainSequence ← lift (Js.get result "mainSequence");
              mainActions ← sanitize host mainSequence;
              releaseSequence ← lift (Js.get result "releaseSequence");
              releaseActions ← sanitize host releaseSequence;
              mret (mainActions, releaseActions)
          end
      end
  end.

(** ** MacroVisualizer.tsx: the playback scheduler *)

Inductive ScrollState : Type := ScrollUp | ScrollDown.

(** The closures handed to [setTimeout]. *)
Inductive Callback : Type :=
| ReleaseKey (keyName : string)   (* lines 157-161: delete keyName from activeKeys *)
| ReleaseBtn (btn : string)       (* lines 174-178: delete btn from activeMouseBtns *)
| ClearScroll                     (* line 187: setScrollState(null) *)
| NextStep (index : nat).         (* line 197: runStep(index), index being the successor *)

Record Timer : Type := { delay : number; callback : Callback }.

(** The component's state and refs, and the host's table of pending timers
    (handle to timer) with the next handle [setTimeout] will return. *)
Record Visualizer : Type := {
  currentIndex : Z;
  isPlaying : bool;
  activeKeys : gset string;
  activeMouseBtns : gset string;
  scrollState : option ScrollState;
  isPlayingRef : bool;
  timeoutsRef : list nat;
  timers : gmap nat Timer;
  nextTimer : nat
}.

Definition setCurrentIndex (v : Z) (s : Visualizer) : Visualizer :=
  {| currentIndex := v; isPlaying := isPlaying s; activeKeys := activeKeys s;
     activeMouseBtns := activeMouseBtns s; scrollState := scrollState s;
     isPlayingRef := isPlayingRef s; timeoutsRef := timeoutsRef s;
     timers := timers s; nextTimer := nextTimer s |}.

Definition setIsPlaying (v : bool) (s : Visualizer) : Visualizer :=
  {| currentIndex := currentIndex s; isPlaying := v; activeKeys := activeKeys s;
     activeMouseBtns := activeMouseBtns s; scrollState := scrollState s;
     isPlayingRef := isPlayingRef s; timeoutsRef := timeoutsRef s;
     timers := timers s; nextTimer := nextTimer s |}.

Definition setActiveKeys (v : gset string) (s : Visualizer) : Visualizer :=
  {| currentIndex := currentIndex s; isPlaying := isPlaying s; activeKeys := v;
     activeMouseBtns := activeMouseBtns s; scrollState := scrollState s;
     isPlayingRef := isPlayingRef s; timeoutsRef := timeoutsRef s;
     timers := timers s; nextTimer := nextTimer s |}.

Definition setActiveMouseBtns (v : gset string) (s : Visualizer) : Visualizer :=
  {| currentIndex := currentIndex s; isPlaying := isPlaying s; activeKeys := activeKeys s;
     activeMouseBtns := v; scrollState := scrollState s;
     isPlayingRef := isPlayingRef s; timeoutsRef := timeoutsRef s;
     timers := timers s; nextTimer := nextTimer s |}.

Definition setScrollState (v : option ScrollState) (s : Visualizer) : Visualizer :=
  {| currentIndex := currentIndex s; isPlaying := isPlaying s; activeKeys := activeKeys s;
     activeMouseBtns := activeMouseBtns s; scrollState := v;
     isPlayingRef := isPlayingRef s; timeoutsRef := timeoutsRef s;
     timers := timers s; nextTimer := nextTimer s |}.

(** [isPlayingRef.current = v] *)
Definition set_isPlayingRef (v : bool) (s : Visualizer) : Visualizer :=
  {| currentIndex := currentIndex s; isPlaying := isPlaying s; activeKeys := activeKeys s;
     activeMouseBtns := activeMouseBtns s; scrollState := scrollState s;
     isPlayingRef := v; timeoutsRef := timeoutsRef s;
     timers := timers s; nextTimer := nextTimer s |}.

(** [timeoutsRef.current = v] *)
Definition set_timeoutsRef (v : list nat) (s : Visualizer) : Visualizer :=
  {| currentIndex := currentIndex s; isPlaying := isPlaying s; activeKeys := activeKeys s;
     activeMouseBtns := activeMouseBtns s; scrollState := scrollState s;
     isPlayingRef := isPlayingRef s; timeoutsRef := v;
     timers := timers s; nextTimer := nextTimer s |}.

(** [setTimeout(cb, ms)]: registers the timer under a fresh handle and
    returns the handle. *)
Definition setTimeout (cb : Callback) (ms : number) (s : Visualizer) : nat * Visualizer :=
  (nextTimer s,
   {| currentIndex := currentIndex s; isPlaying := isPlaying s; activeKeys := activeKeys s;
      activeMouseBtns := activeMouseBtns s; scrollState := scrollState s;
      isPlayingRef := isPlayingRef s; timeoutsRef := timeoutsRef s;
      timers := <[nextTimer s := {| delay := ms; callback := cb |}]> (timers s);
      nextTimer := S (nextTimer s) |}).

(** [clearTimeout(t)]: nothing happens when [t] is no longer pending. *)
Definition clearTimeout (s : Visualizer) (t : nat) : Visualizer :=
  {| currentIndex := currentIndex s; isPlaying := isPlaying s; activeKeys := activeKeys s;
     activeMouseBtns := activeMouseBtns s; scrollState := scrollState s;
     isPlayingRef := isPlayingRef s; timeoutsRef := timeoutsRef s;
     timers := delete t (timers s); nextTimer := nextTimer s |}.

(** [timeoutsRef.current.push(t)] *)
Definition push_timeout (t : nat) (s : Visualizer) : Visualizer :=
  set_timeoutsRef (timeoutsRef s ++ [t]) s.

(** [stop], lines 121-127. *)
Definition stop (s : Visualizer) : Visualizer :=
  let s := set_isPlayingRef false s in
  let s := setIsPlaying false s in
  let s := foldl clearTimeout s (timeoutsRef s) in
  let s := set_timeoutsRef [] s in
  setScrollState None s.

(** [reset], lines 113-119. *)
Definition reset (s : Visualizer) : Visualizer :=
  let s := stop s in
  let s := setCurrentIndex (-1) s in
  let s := setActiveKeys ∅ s in
  let s := setActiveMouseBtns ∅ s in
  setScrollState None s.

(** [action.key || ''] and [action.button || 'left'] *)
Definition string_or (v : option string) (fallback : string) : string :=
  match v with
  | Some s => if JsString.truthy s then s else fallback
  | None => fallback
  end.

(** [action.duration || 0] and [action.scrollAmount || 0] *)
Definition number_or_zero (v : option number) : number :=
  match v with
  | Some n => Js.number_or n (Int 0)
  | None => Int 0
  end.

(** [action.actionState === state] *)
Definition state_is (action : MacroAction.t) (state : string) : bool :=
  match MacroAction.actionState action with
  | Some s => String.eqb s state
  | None => false
  end.

(** The pacing of a step, lines 192-195. *)
Definition stepDuration (action : MacroAction.t) : number :=
  if Js.is_string (MacroAction.type action) ActionType.DELAY
  then Js.Math_max 100 (number_or_zero (MacroAction.duration action))
  else Int 500.

(** [runStep], lines 136-199, but for its last statement. *)
Definition runStep_effects (action : MacroAction.t) (s : Visualizer) : Visualizer :=
  if Js.is_string (MacroAction.type action) ActionType.KEY then
    let keyName := normalizeKey (string_or (MacroAction.key action) "") in
    if state_is action "down" then setActiveKeys ({[keyName]} ∪ activeKeys s) s
    else if state_is action "up" then setActiveKeys (activeKeys s ∖ {[keyName]}) s
    else
      let '(t, s) := setTimeout (ReleaseKey keyName) (Int 200) s in
      let s := push_timeout t s in
      setActiveKeys ({[keyName]} ∪ activeKeys s) s
  else if Js.is_string (MacroAction.type action) ActionType.CLICK then
    let btn := string_or (MacroAction.button action) "left" in
    if state_is action "down" then setActiveMouseBtns ({[btn]} ∪ activeMouseBtns s) s
    else if state_is action "up" then setActiveMouseBtns (activeMouseBtns s ∖ {[btn]}) s
    else
      let '(t, s) := setTimeout (ReleaseBtn btn) (Int 200) s in
      let s := push_timeout t s in
      setActiveMouseBtns ({[btn]} ∪ activeMouseBtns s) s
  else if Js.is_string (MacroAction.type action) ActionType.SCROLL then
    match number_or_zero (MacroAction.scrollAmount action) with
    | Int 0 | NaN => s
    | Int amt =>
        let s := setScrollState (Some (if 0 <? amt then ScrollUp else ScrollDown)) s in
        let '(t, s) := setTimeout ClearScroll (Int 300) s in
        push_timeout t s
    end
  else s.

(** [runStep], lines 136-199. *)
Definition runStep (actions : list MacroAction.t) (index : nat) (s : Visualizer)
  : Visualizer :=
  if negb (isPlayingRef s) then s
  else
    match actions !! index with
    | None =>                                   (* index >= actions.length *)
        let s := setIsPlaying false s in
        set_isPlayingRef false s
    | Some action =>
        let s := setCurrentIndex (Z.of_nat index) s in
        let s := setScrollState None s in
        let s := runStep_effects action s in
        let '(t, s) := setTimeout (NextStep (index + 1)) (stepDuration action) s in
        push_timeout t s
    end.

(** [play], lines 129-202. *)
Definition play (actions : list MacroAction.t) (s : Visualizer) : Visualizer :=
  if isPlayingRef s then s
  else
    let s := reset s in
    let s := set_isPlayingRef true s in
    let s := setIsPlaying true s in
    runStep actions 0 s.

(** A pending timer fires: the host forgets it and runs its callback. *)
Definition fire (actions : list MacroAction.t) (t : nat) (s : Visualizer) : Visualizer :=
  match timers s !! t with
  | None => s
  | Some timer =>
      let s := clearTimeout s t in
      match callback timer with
      | ReleaseKey keyName => setActiveKeys (activeKeys s ∖ {[keyName]}) s
      | ReleaseBtn btn => setActiveMouseBtns (activeMouseBtns s ∖ {[btn]}) s
      | ClearScroll => setScrollState None s
      | NextStep index => runStep actions index s
      end
  end.

(** The state at mount, lines 103-111. *)
Definition mounted : Visualizer :=
  {| currentIndex := -1; isPlaying := false; activeKeys := ∅; activeMouseBtns := ∅;
     scrollState := None; isPlayingRef := false; timeoutsRef := [];
     timers := ∅; nextTimer := 0 |}.

(** What can happen to a mounted visualizer: the two buttons of the control
    bar (the first is [stop] while playing and [play] otherwise, the second
    is [reset]), a direct call of [stop] (unmount), and a timer firing. *)
Inductive Event : Type :=
| Play
| Stop
| Reset
| Fire (t : nat).

Definition handle (actions : list MacroAction.t) (e : Event) (s : Visualizer) : Visualizer :=
  match e with
  | Play => play actions s
  | Stop => stop s
  | Reset => reset s
  | Fire t => fire actions t s
  end.

(** The states of a run over [actions]. *)
Inductive reachable (actions : list MacroAction.t) : Visualizer -> Prop :=
| reachable_mounted : reachable actions mounted
| reachable_handle e s :
    reachable actions s -> reachable actions (handle actions e s).

(** ** types.ts: macros *)

Module LoopMode.
Definition ONCE : string := "once".
Definition REPEAT : string := "repeat".
Definition TOGGLE : string := "toggle".
End LoopMode.

(** [interface Macro] *)
Module Macro.
Record t : Type := mk {
  id : string;
  name : string;
  triggerKey : string;
  loopMode : string;
  actions : list MacroAction.t;
  releaseActions : list MacroAction.t
}.
End Macro.

(** [Partial<Macro>], the second argument of [updateMacro]. *)
Module PartialMacro.
Record t : Type := mk {
  id : option string;
  name : option string;
  triggerKey : option string;
  loopMode : option string;
  actions : option (list MacroAction.t);
  releaseActions : option (list MacroAction.t)
}.
End PartialMacro.

(** [{ ...m, ...updates }] *)
Definition assign (m : Macro.t) (updates : PartialMacro.t) : Macro.t :=
  {| Macro.id := default (Macro.id m) (PartialMacro.id updates);
     Macro.name := default (Macro.name m) (PartialMacro.name updates);
     Macro.triggerKey := default (Macro.triggerKey m) (PartialMacro.triggerKey updates);
     Macro.loopMode := default (Macro.loopMode m) (PartialMacro.loopMode updates);
     Macro.actions := default (Macro.actions m) (PartialMacro.actions updates);
     Macro.releaseActions :=
       default (Macro.releaseActions m) (PartialMacro.releaseActions updates) |}.

(** ** App.tsx *)

Inductive EditView : Type := Main | Release.

(** The calls of [alert] in [processImport]. *)
Inductive Alert : Type :=
| AlertEmpty                        (* 内容为空！ *)
| AlertNotJson                      (* 导入失败：内容不是有效的 JSON 格式。 *)
| AlertRootNotArray                 (* JSON 格式错误：根节点必须是数组 (Macro[]) *)
| AlertImported (count : nat)       (* 成功导入 count 个宏配置！ *)
| AlertValidationFailed (e : Exn).  (* 导入数据校验失败: e.message *)

(** The state of [App] that [processImport] and [handleAiGenerate] touch,
    the document stored under [LOCAL_STORAGE_KEY], and the alerts shown so
    far.  The progress ticker of the AI dialog ([aiStepIndex],
    [stepInterval]) is left out. *)
Record App : Type := mkApp {
  macros : list Macro.t;
  selectedMacroId : option string;
  editView : EditView;
  showAiModal : bool;
  aiPrompt : string;
  aiLoading : bool;
  aiError : option string;
  showManualImport : bool;
  manualImportJson : string;
  localStorage : option (list Macro.t);
  alerts : list Alert
}.

(** [localStorage.setItem(LOCAL_STORAGE_KEY, JSON.stringify(v))] *)
Definition localStorage_setItem (v : list Macro.t) (s : App) : App :=
  mkApp (macros s) (selectedMacroId s) (editView s) (showAiModal s) (aiPrompt s)
    (aiLoading s) (aiError s) (showManualImport s) (manualImportJson s)
    (Some v) (alerts s).

(** [setMacros(v)], followed by the auto-save effect of lines 100-104, which
    runs when [macros] has changed. *)
Definition setMacros (v : list Macro.t) (s : App) : App :=
  let s :=
    mkApp v (selectedMacroId s) (editView s) (showAiModal s) (aiPrompt s)
      (aiLoading s) (aiError s) (showManualImport s) (manualImportJson s)
      (localStorage s) (alerts s) in
  if (0 <? length v)%nat then localStorage_setItem v s else s.

Definition setSelectedMacroId (v : option string) (s : App) : App :=
  mkApp (macros s) v (editView s) (showAiModal s) (aiPrompt s)
    (aiLoading s) (aiError s) (showManualImport s) (manualImportJson s)
    (localStorage s) (alerts s).

Definition setEditView (v : EditView) (s : App) : App :=
  mkApp (macros s) (selectedMacroId s) v (showAiModal s) (aiPrompt s)
    (aiLoading s) (aiError s) (showManualImport s) (manualImportJson s)
    (localStorage s) (alerts s).

Definition setShowAiModal (v : bool) (s : App) : App :=
  mkApp (macros s) (selectedMacroId s) (editView s) v (aiPrompt s)
    (aiLoading s) (aiError s) (showManualImport s) (manualImportJson s)
    (localStorage s) (alerts s).

Definition setAiPrompt (v : string) (s : App) : App :=
  mkApp (macros s) (selectedMacroId s) (editView s) (showAiModal s) v
    (aiLoading s) (aiError s) (showManualImport s) (manualImportJson s)
    (localStorage s) (alerts s).

Definition setAiLoading (v : bool) (s : App) : App :=
  mkApp (macros s) (selectedMacroId s) (editView s) (showAiModal s) (aiPrompt s)
    v (aiError s) (showManualImport s) (manualImportJson s)
    (localStorage s) (alerts s).

Definition setAiError (v : option string) (s : App) : App :=
  mkApp (macros s) (selectedMacroId s) (editView s) (showAiModal s) (aiPrompt s)
    (aiLoading s) v (showManualImport s) (manualImportJson s)
    (localStorage s) (alerts s).

Definition setShowManualImport (v : bool) (s : App) : App :=
  mkApp (macros s) (selectedMacroId s) (editView s) (showAiModal s) (aiPrompt s)
    (aiLoading s) (aiError s) v (manualImportJson s)
    (localStorage s) (alerts s).

Definition setManualImportJson (v : string) (s : App) : App :=
  mkApp (macros s) (selectedMacroId s) (editView s) (showAiModal s) (aiPrompt s)
    (aiLoading s) (aiError s) (showManualImport s) v
    (localStorage s) (alerts s).

Definition alert (v : Alert) (s : App) : App :=
  mkApp (macros s) (selectedMacroId s) (editView s) (showAiModal s) (aiPrompt s)
    (aiLoading s) (aiError s) (showManualImport s) (manualImportJson s)
    (localStorage s) (alerts s ++ [v]).

(** [updateMacro], lines 210-213. *)
Definition updateMacro (id : string) (updates : PartialMacro.t) (s : App) : App :=
  let newMacros :=
    List.map (fun m => if String.eqb (Macro.id m) id then assign m updates else m)
      (macros s) in
  setMacros newMacros s.

(** [{ ...m, k: v }] on the fields of an object: an existing property keeps
    its place and takes the new value, a new one goes last. *)
Fixpoint set_field (k : string) (v : JVal) (fields : list (string * JVal))
  : list (string * JVal) :=
  match fields with
  | [] => [(k, v)]
  | (k', v') :: rest =>
      if String.eqb k' k then (k, v) :: rest else (k', v') :: set_field k v rest
  end.

(** [{ ...m, k: v }].  Spreading a value without own properties gives only
    the new property; [validate_macro] reaches its spread with an object. *)
Definition spread_with (m : JVal) (k : string) (v : JVal) : JVal :=
  match m with
  | JObj fields => JObj (set_field k v fields)
  | _ => JObj [(k, v)]
  end.

(** The callback of [parsed.map], lines 145-153, at index [idx]. *)
Definition validate_macro (idx : nat) (m : JVal) : Result JVal :=
  id ← Js.get m "id";
  name ← Js.get m "name";
  triggerKey ← Js.get m "triggerKey";
  actions ← Js.get m "actions";
  if negb (Js.truthy id) || negb (Js.truthy name) || negb (Js.truthy triggerKey)
     || negb (Js.isArray actions)
  then Throw (MissingFields (idx + 1))
  else
    releaseActions ← Js.get m "releaseActions";
    mret (spread_with m "releaseActions"
            (if Js.isArray releaseActions then releaseActions else JArr [])).

(** [parsed.map(callback)] from index [idx] on. *)
Fixpoint validate_from (idx : nat) (parsed : list JVal) : Result (list JVal) :=
  match parsed with
  | [] => mret []
  | m :: rest =>
      m' ← validate_macro idx m;
      rest' ← validate_from (S idx) rest;
      mret (m' :: rest')
  end.

Section App.

Variable host : Host.

(** The annotation [validatedMacros: Macro[]] of line 145: how a validated
    JSON object is read as a [Macro].  TypeScript does not check it. *)
Variable as_Macro : JVal -> Macro.t.

(** [processImport], lines 125-168. *)
Definition processImport (jsonString : string) (s : App) : App :=
  if negb (JsString.truthy jsonString) || negb (JsString.truthy (Js.trim jsonString))
  then alert AlertEmpty s
  else
    match JSON_parse host jsonString with
    | None => alert AlertNotJson s
    | Some parsed =>
        match parsed with
        | JArr items =>
            match validate_from 0 items with
            | Ok validated =>
                let validatedMacros := List.map as_Macro validated in
                let s := setMacros validatedMacros s in
                let s :=
                  match validatedMacros with
                  | first :: _ => setSelectedMacroId (Some (Macro.id first)) s
                  | [] => s
                  end in
                let s := localStorage_setItem validatedMacros s in
                let s := alert (AlertImported (length validatedMacros)) s in
                let s := setShowManualImport false s in
                setManualImportJson "" s
            | Throw e => alert (AlertValidationFailed e) s
            end
        | _ => alert AlertRootNotArray s
        end
    end.

(** [handleAiGenerate], lines 263-308, after [calls] calls of
    [Math.random]. *)
Definition handleAiGenerate (calls : nat) (s : App) : App :=
  match API_KEY host with
  | None | Some EmptyString => setAiError (Some "未配置 API Key，请检查环境变量。") s
  | Some _ =>
      match selectedMacroId s with
      | None | Some EmptyString => s
      | Some selected =>
          let s := setAiLoading true s in
          let s := setAiError None s in
          let s :=
            match generateMacroFromPrompt host (aiPrompt s) calls with
            | Ok ((mainActions, releaseActions), _) =>
                match List.find (fun m => String.eqb (Macro.id m) selected) (macros s) with
                | Some macro =>
                    let newActions := (Macro.actions macro ++ mainActions)%list in
                    let newReleaseActions := (Macro.releaseActions macro ++ releaseActions)%list in
                    let s :=
                      updateMacro selected
                        {| PartialMacro.id := None; PartialMacro.name := None;
                           PartialMacro.triggerKey := None; PartialMacro.loopMode := None;
                           PartialMacro.actions := Some newActions;
                           PartialMacro.releaseActions := Some newReleaseActions |} s in
                    let s := setShowAiModal false s in
                    let s := setAiPrompt "" s in
                    if (length mainActions =? 0)%nat && (0 <? length releaseActions)%nat
                    then setEditView Release s
                    else setEditView Main s
                | None => s
                end
            | Throw _ => setAiError (Some "生成失败，模型可能过载。请稍后重试。") s
            end in
          setAiLoading false s
      end
  end.

End App.

(** ** Notions used by the statements, and examples *)

(** Every pending timer's handle is kept in [timeoutsRef]. *)
Definition tracked (s : Visualizer) : Prop :=
  forall t, is_Some (timers s !! t) -> t ∈ timeoutsRef s.

(** The duration of an action in milliseconds, 0 when it has none or when
    it is not a number. *)
Definition duration_ms (action : MacroAction.t) : Z :=
  match MacroAction.duration action with
  | Some (Int d) => d
  | Some NaN | None => 0
  end.

(** A Delay of 50 ms. *)
Definition delay50 : MacroAction.t :=
  delay_literal "d50" (Int 50).

(** A click of the key "a". *)
Definition key_a_click : MacroAction.t :=
  {| MacroAction.id := "k1"; MacroAction.type := JStr "KEY";
     MacroAction.actionState := Some "click"; MacroAction.button := None;
     MacroAction.duration := None; MacroAction.x := None; MacroAction.y := None;
     MacroAction.absolute := None; MacroAction.key := Some "a";
     MacroAction.scrollAmount := None |}.

(** The id that [generateId] returns at the k-th call of [Math.random]. *)
Definition nth_id (host : Host) (k : nat) : string :=
  substr 2 9 (Math_random_toString36 host k).

(** A host for the examples: the service is unreachable, and [Math.random]
    gives the listed draws, then 0. *)
Definition sample_host : Host :=
  {| API_KEY := Some "key";
     generateContent := fun _ => Throw TransportError;
     JSON_parse := fun _ => None;
     Math_random_toString36 := fun k =>
       nth k ["0.4fzyo82mvyr"; "0.ly1k03x9cq8"; "0.07tqe5hd2wn"; "0.q8s4b6j1zu"] "0" |}.

(** The duration of the atomic action of rule 3: for a Delay the parsed
    duration, or 100 when that is 0 or NaN; 0 for the other kinds. *)
Definition atomic_duration (type : JVal) (duration : number) : number :=
  if Js.is_string type "DELAY" then
    match duration with
    | NaN | Int 0 => Int 100
    | Int d => Int d
    end
  else Int 0.

(** [a.k] on a value that is neither [null] nor [undefined]. *)
Definition field (a : JVal) (k : string) : JVal :=
  match a with
  | JObj fields => Js.assoc k fields
  | _ => JUndefined
  end.

(** A field on which [(v || fallback).toLowerCase()] does not throw: falsy,
    or a string. *)
Definition text_or_falsy (v : JVal) : bool :=
  match v with
  | JStr _ => true
  | _ => negb (Js.truthy v)
  end.

(** The list elements that an iteration of [sanitize] accepts: every value
    but [null] and [undefined] whose [button], [key] and [actionState] are
    strings or falsy. *)
Definition accepted (a : JVal) : bool :=
  match a with
  | JUndefined | JNull => false
  | _ =>
      text_or_falsy (field a "button") && text_or_falsy (field a "key")
      && text_or_falsy (field a "actionState")
  end.

(** Two candidates that carry an [id] of their own. *)
Definition two_candidates : list JVal :=
  [ JObj [("id", JStr "mine"); ("type", JStr "KEY"); ("key", JStr "W");
          ("duration", JNum (Int 2000))];
    JObj [("id", JStr "mine"); ("type", JStr "SCROLL"); ("scrollAmount", JNum (Int (-3)))] ].

(** A host whose [Math.random] returns 0 at every call: [(0).toString(36)]
    is "0". *)
Definition zero_random_host : Host :=
  {| API_KEY := Some "key";
     generateContent := fun _ => Throw TransportError;
     JSON_parse := fun _ => None;
     Math_random_toString36 := fun _ => "0" |}.

(** The specification's shape check on an element of the imported array: an
    object with non-empty [id], [name] and [triggerKey] and an array
    [actions]. *)
Definition has_required_fields (m : JVal) : bool :=
  match m with
  | JObj fields =>
      Js.truthy (Js.assoc "id" fields) && Js.truthy (Js.assoc "name" fields)
      && Js.truthy (Js.assoc "triggerKey" fields)
      && Js.isArray (Js.assoc "actions" fields)
  | _ => false
  end.

(** The element with [releaseActions] defaulted: kept when it is an array,
    the empty array otherwise. *)
Definition with_releaseActions (m : JVal) : JVal :=
  spread_with m "releaseActions"
    (if Js.isArray (field m "releaseActions") then field m "releaseActions" else JArr []).

(** What [processImport] leaves alone when it reports an error. *)
Definition import_aborted (s s' : App) : Prop :=
  macros s' = macros s /\
  selectedMacroId s' = selectedMacroId s /\
  localStorage s' = localStorage s /\
  exists a, alerts s' = (alerts s ++ [a])%list /\ forall count, a <> AlertImported count.

(** [DEFAULT_MACRO], lines 32-39. *)
Definition DEFAULT_MACRO : Macro.t :=
  {| Macro.id := "default-1"; Macro.name := "新建宏配置"; Macro.triggerKey := "f1";
     Macro.loopMode := LoopMode.ONCE; Macro.actions := []; Macro.releaseActions := [] |}.

(** The application with the default macro selected and the AI dialog
    open. *)
Definition sample_app : App :=
  {| macros := [DEFAULT_MACRO]; selectedMacroId := Some "default-1"; editView := Main;
     showAiModal := true; aiPrompt := "hold W for two seconds"; aiLoading := false;
     aiError := None; showManualImport := false; manualImportJson := "";
     localStorage := Some [DEFAULT_MACRO]; alerts := [] |}.

(** A reading of an imported object as a [Macro], for the examples. *)
Definition read_string (v : JVal) : string :=
  match v with JStr s => s | _ => "" end.

Definition read_text (v : JVal) : option string :=
  match v with JStr s => Some s | _ => None end.

Definition read_number (v : JVal) : option number :=
  match v with JNum n => Some n | _ => None end.

Definition read_any (v : JVal) : option JVal :=
  match v with JUndefined => None | _ => Some v end.

Definition read_action (a : JVal) : MacroAction.t :=
  {| MacroAction.id := read_string (field a "id");
     MacroAction.type := field a "type";
     MacroAction.actionState := read_text (field a "actionState");
     MacroAction.button := read_text (field a "button");
     MacroAction.duration := read_number (field a "duration");
     MacroAction.x := read_any (field a "x");
     MacroAction.y := read_any (field a "y");
     MacroAction.absolute := read_any (field a "absolute");
     MacroAction.key := read_text (field a "key");
     MacroAction.scrollAmount := read_number (field a "scrollAmount") |}.

Definition read_actions (v : JVal) : list MacroAction.t :=
  match v with JArr items => List.map read_action items | _ => [] end.

Definition read_Macro (m : JVal) : Macro.t :=
  {| Macro.id := read_string (field m "id");
     Macro.name := read_string (field m "name");
     Macro.triggerKey := read_string (field m "triggerKey");
     Macro.loopMode := read_string (field m "loopMode");
     Macro.actions := read_actions (field m "actions");
     Macro.releaseActions := read_actions (field m "releaseActions") |}.

(** A host for the import examples: [JSON.parse] on the texts "{}",
    "[1, 2]" and "[]"; every other text used below is not JSON. *)
Definition import_host : Host :=
  {| API_KEY := None;
     generateContent := fun _ => Throw TransportError;
     JSON_parse := fun text =>
       if String.eqb text "{}" then Some (JObj [])
       else if String.eqb text "[1, 2]" then Some (JArr [JNum (Int 1); JNum (Int 2)])
       else if String.eqb text "[]" then Some (JArr [])
       else None;
     Math_random_toString36 := fun _ => "0" |}.

(** The service answers, but with a text that is not JSON. *)
Definition unparsable_host : Host :=
  {| API_KEY := Some "key";
     generateContent := fun _ => Ok (Some "Sorry, I cannot help with that.");
     JSON_parse := fun _ => None;
     Math_random_toString36 := fun _ => "0.4fzyo82mvyr" |}.

(** ** App.tsx: the editing surface *)

(** [Partial<MacroAction>], the second argument of [updateAction]: [Some v]
    for a property the update carries. *)
Module PartialAction.
Record t : Type := mk {
  id : option string;
  type : option JVal;
  actionState : option string;
  button : option string;
  duration : option number;
  x : option JVal;
  y : option JVal;
  absolute : option JVal;
  key : option string;
  scrollAmount : option number
}.
End PartialAction.

(** A property of [{ ...a, ...updates }] that is optional in [a]. *)
Definition merged {A : Type} (old new : option A) : option A :=
  match new with
  | Some v => Some v
  | None => old
  end.

(** [{ ...a, ...updates }], line 248. *)
Definition assign_action (a : MacroAction.t) (updates : PartialAction.t) : MacroAction.t :=
  {| MacroAction.id := default (MacroAction.id a) (PartialAction.id updates);
     MacroAction.type := default (MacroAction.type a) (PartialAction.type updates);
     MacroAction.actionState :=
       merged (MacroAction.actionState a) (PartialAction.actionState updates);
     MacroAction.button := merged (MacroAction.button a) (PartialAction.button updates);
     MacroAction.duration :=
       merged (MacroAction.duration a) (PartialAction.duration updates);
     MacroAction.x := merged (MacroAction.x a) (PartialAction.x updates);
     MacroAction.y := merged (MacroAction.y a) (PartialAction.y updates);
     MacroAction.absolute :=
       merged (MacroAction.absolute a) (PartialAction.absolute updates);
     MacroAction.key := merged (MacroAction.key a) (PartialAction.key updates);
     MacroAction.scrollAmount :=
       merged (MacroAction.scrollAmount a) (PartialAction.scrollAmount updates) |}.

(** [macros.find(m => m.id === id)] *)
Definition find_macro (id : string) (ms : list Macro.t) : option Macro.t :=
  List.find (fun m => String.eqb (Macro.id m) id) ms.

(** [selectedMacro], line 96.  No macro is found while [selectedMacroId] is
    [null]. *)
Definition selectedMacro (s : App) : option Macro.t :=
  match selectedMacroId s with
  | Some id => find_macro id (macros s)
  | None => None
  end.

(** [macro[listKey]] for [listKey = editView === 'main' ? 'actions' :
    'releaseActions'], lines 235-236. *)
Definition list_of (view : EditView) (macro : Macro.t) : list MacroAction.t :=
  match view with
  | Main => Macro.actions macro
  | Release => Macro.releaseActions macro
  end.

(** [{ [listKey]: list }], lines 240, 249 and 259. *)
Definition list_update (view : EditView) (l : list MacroAction.t) : PartialMacro.t :=
  match view with
  | Main =>
      {| PartialMacro.id := None; PartialMacro.name := None;
         PartialMacro.triggerKey := None; PartialMacro.loopMode := None;
         PartialMacro.actions := Some l; PartialMacro.releaseActions := None |}
  | Release =>
      {| PartialMacro.id := None; PartialMacro.name := None;
         PartialMacro.triggerKey := None; PartialMacro.loopMode := None;
         PartialMacro.actions := None; PartialMacro.releaseActions := Some l |}
  end.

(** [currentActionList], line 97. *)
Definition currentActionList (s : App) : list MacroAction.t :=
  match selectedMacro s with
  | Some macro => list_of (editView s) macro
  | None => []
  end.

(** [list.splice(index, 0, x)] for an index that is not negative: past the
    end it appends. *)
Definition splice_in {A : Type} (index : nat) (x : A) (l : list A) : list A :=
  (take index l ++ x :: drop index l)%list.

Section Editing.

Variable host : Host.

(** [addMacro], lines 180-191, when [Math.random] has been called [calls]
    times.  The id is [Math.random().toString(36).substr(2, 9)], the
    expression of [generateId]. *)
Definition addMacro (calls : nat) (s : App) : App :=
  let newMacro :=
    assign DEFAULT_MACRO
      {| PartialMacro.id := Some (nth_id host calls);
         PartialMacro.name :=
           Some ("宏配置 "
                 +:+ Js.String_ (JNum (Int (Z.of_nat (length (macros s)) + 1))));
         PartialMacro.triggerKey := None; PartialMacro.loopMode := None;
         PartialMacro.actions := None;
         PartialMacro.releaseActions := Some [] |} in
  let newMacros := (macros s ++ [newMacro])%list in
  let s := setMacros newMacros s in
  let s := setSelectedMacroId (Some (Macro.id newMacro)) s in
  setEditView Main s.

(** [deleteMacro], lines 193-208. *)
Definition deleteMacro (id : string) (s : App) : App :=
  let newMacros := List.filter (fun m => negb (String.eqb (Macro.id m) id)) (macros s) in
  let selected := selectedMacroId s in
  let s := setMacros newMacros s in
  let s :=
    match selected with
    | Some sel =>
        if String.eqb sel id then
          match newMacros with
          | first :: _ => setSelectedMacroId (Some (Macro.id first)) s
          | [] => setSelectedMacroId None s
          end
        else s
    | None => s
    end in
  match newMacros with
  | [] => localStorage_setItem [] s
  | _ :: _ => s
  end.

(** [createNewAction], lines 215-226, at the [calls]-th call of
    [Math.random]. *)
Definition createNewAction (calls : nat) (type : string) : MacroAction.t :=
  {| MacroAction.id := nth_id host calls;
     MacroAction.type := JStr type;
     MacroAction.button := Some "left";
     MacroAction.actionState := Some "click";
     MacroAction.duration := Some (Int 100);
     MacroAction.x := Some (JNum (Int 0));
     MacroAction.y := Some (JNum (Int 0));
     MacroAction.absolute := Some (JBool false);
     MacroAction.key := Some "";
     MacroAction.scrollAmount :=
       Some (if String.eqb type ActionType.SCROLL then Int 1 else Int 0) |}.

(** [insertActionAt], lines 229-241. *)
Definition insertActionAt (calls : nat) (index : nat) (type : string) (s : App) : App :=
  match selectedMacroId s with
  | None | Some EmptyString => s
  | Some selected =>
      match find_macro selected (macros s) with
      | None => s
      | Some macro =>
          let newAction := createNewAction calls type in
          let currentList := splice_in index newAction (list_of (editView s) macro) in
          updateMacro selected (list_update (editView s) currentList) s
      end
  end.

(** [updateAction], lines 243-251. *)
Definition updateAction (actionId : string) (updates : PartialAction.t) (s : App) : App :=
  match selectedMacroId s with
  | None | Some EmptyString => s
  | Some selected =>
      match find_macro selected (macros s) with
      | None => s
      | Some macro =>
          let newActions :=
            List.map (fun a => if String.eqb (MacroAction.id a) actionId
                               then assign_action a updates else a)
              (list_of (editView s) macro) in
          updateMacro selected (list_update (editView s) newActions) s
      end
  end.

(** [removeAction], lines 253-261. *)
Definition removeAction (actionId : string) (s : App) : App :=
  match selectedMacroId s with
  | None | Some EmptyString => s
  | Some selected =>
      match find_macro selected (macros s) with
      | None => s
      | Some macro =>
          let newActions :=
            List.filter (fun a => negb (String.eqb (MacroAction.id a) actionId))
              (list_of (editView s) macro) in
          updateMacro selected (list_update (editView s) newActions) s
      end
  end.

End Editing.

(** The own enumerable properties of a value, in order, as [{ ...v }] copies
    them: the fields of an object, the elements of an array and the
    characters of a string under their indices, nothing for the other
    values. *)
Fixpoint indexed_from {A : Type} (f : A -> JVal) (i : nat) (l : list A)
  : list (string * JVal) :=
  match l with
  | [] => []
  | x :: rest => (NilZero.string_of_uint (Nat.to_uint i), f x) :: indexed_from f (S i) rest
  end.

Definition own_properties (v : JVal) : list (string * JVal) :=
  match v with
  | JObj fields => fields
  | JArr items => indexed_from (fun e => e) 0 items
  | JStr s => indexed_from (fun c => JStr (String c EmptyString)) 0 (list_ascii_of_string s)
  | JUndefined | JNull | JBool _ | JNum _ => []
  end.

(** The callback of [parsed.map] at mount, lines 79-82:
    [{ ...m, releaseActions: m.releaseActions || [] }]. *)
Definition migrate_macro (m : JVal) : Result JVal :=
  releaseActions ← Js.get m "releaseActions";
  mret (JObj (set_field "releaseActions" (Js.or_else releaseActions (JArr []))
                (own_properties m))).

Fixpoint migrate_all (parsed : list JVal) : Result (list JVal) :=
  match parsed with
  | [] => mret []
  | m :: rest =>
      m' ← migrate_macro m;
      rest' ← migrate_all rest;
      mret (m' :: rest')
  end.

(** The state of [App] at its first render, lines 52-70, over a storage
    holding [stored]. *)
Definition first_render (stored : option (list Macro.t)) : App :=
  {| macros := []; selectedMacroId := None; editView := Main; showAiModal := false;
     aiPrompt := ""; aiLoading := false; aiError := None; showManualImport := false;
     manualImportJson := ""; localStorage := stored; alerts := [] |}.

Section Lifecycle.

Variable host : Host.
Variable as_Macro : JVal -> Macro.t.

(** The catch block and the else branch of the mount effect, lines 85-93. *)
Definition use_default (s : App) : App :=
  let s := setMacros [DEFAULT_MACRO] s in
  setSelectedMacroId (Some (Macro.id DEFAULT_MACRO)) s.

(** The mount effect, lines 73-94, when [localStorage.getItem] returns
    [saved].  [parsed.map] exists on arrays only; on any other value the
    call throws a [TypeError]. *)
Definition loadOnMount (saved : option string) (s : App) : App :=
  match saved with
  | None | Some EmptyString => use_default s
  | Some text =>
      match JSON_parse host text with
      | Some (JArr items) =>
          match migrate_all items with
          | Ok migrated =>
              let migrated := List.map as_Macro migrated in
              let s := setMacros migrated s in
              match migrated with
              | first :: _ => setSelectedMacroId (Some (Macro.id first)) s
              | [] => s
              end
          | Throw _ => use_default s
          end
      | Some _ | None => use_default s
      end
  end.

(** [handleImportFromClipboard], lines 170-178: [clipboard] is the text
    that [navigator.clipboard.readText] gives, [None] when it is refused. *)
Definition handleImportFromClipboard (clipboard : option string) (s : App) : App :=
  match clipboard with
  | Some clipboardText => processImport host as_Macro clipboardText s
  | None => setShowManualImport true s
  end.

(** What the user can do to the application.  An event that calls
    [Math.random] carries the number of calls made before it. *)
Inductive AppEvent : Type :=
| AddMacro (calls : nat)                     (* the "+" of the sidebar *)
| SelectMacro (i : nat)                      (* click on the i-th macro of the sidebar *)
| Rename (name : string)                     (* toolbar, shown for the selected macro *)
| SetTriggerKey (triggerKey : string)
| SetLoopMode (loopMode : string)
| DeleteSelected
| SetEditView (view : EditView)
| InsertActionAt (calls index : nat) (type : string)
| UpdateAction (actionId : string) (updates : PartialAction.t)
| RemoveAction (actionId : string)
| ImportFromClipboard (clipboard : option string)
| EditManualImport (text : string)           (* the textarea of the import dialog *)
| CloseManualImport
| ImportManually                             (* processImport(manualImportJson) *)
| OpenAiModal
| CloseAiModal
| EditAiPrompt (text : string)               (* the textarea of the AI dialog *)
| AiGenerate (calls : nat).

Definition on_selected (f : Macro.t -> App -> App) (s : App) : App :=
  match selectedMacro s with
  | Some macro => f macro s
  | None => s
  end.

Definition only_name (name : string) : PartialMacro.t :=
  {| PartialMacro.id := None; PartialMacro.name := Some name;
     PartialMacro.triggerKey := None; PartialMacro.loopMode := None;
     PartialMacro.actions := None; PartialMacro.releaseActions := None |}.

Definition only_triggerKey (triggerKey : string) : PartialMacro.t :=
  {| PartialMacro.id := None; PartialMacro.name := None;
     PartialMacro.triggerKey := Some triggerKey; PartialMacro.loopMode := None;
     PartialMacro.actions := None; PartialMacro.releaseActions := None |}.

Definition only_loopMode (loopMode : string) : PartialMacro.t :=
  {| PartialMacro.id := None; PartialMacro.name := None;
     PartialMacro.triggerKey := None; PartialMacro.loopMode := Some loopMode;
     PartialMacro.actions := None; PartialMacro.releaseActions := None |}.

(** The handlers bound in the render of [App], lines 310-700. *)
Definition app_handle (e : AppEvent) (s : App) : App :=
  match e with
  | AddMacro calls => addMacro host calls s
  | SelectMacro i =>
      match macros s !! i with
      | Some macro => setSelectedMacroId (Some (Macro.id macro)) s
      | None => s
      end
  | Rename name =>
      on_selected (fun macro => updateMacro (Macro.id macro) (only_name name)) s
  | SetTriggerKey triggerKey =>
      on_selected (fun macro => updateMacro (Macro.id macro) (only_triggerKey triggerKey)) s
  | SetLoopMode loopMode =>
      on_selected (fun macro => updateMacro (Macro.id macro) (only_loopMode loopMode)) s
  | DeleteSelected => on_selected (fun macro => deleteMacro (Macro.id macro)) s
  | SetEditView view => setEditView view s
  | InsertActionAt calls index type => insertActionAt host calls index type s
  | UpdateAction actionId updates => updateAction actionId updates s
  | RemoveAction actionId => removeAction actionId s
  | ImportFromClipboard clipboard => handleImportFromClipboard clipboard s
  | EditManualImport text => setManualImportJson text s
  | CloseManualImport => setShowManualImport false s
  | ImportManually =>
      (* the button is disabled while the text is blank *)
      if negb (JsString.truthy (Js.trim (manualImportJson s))) then s
      else processImport host as_Macro (manualImportJson s) s
  | OpenAiModal => setShowAiModal true s
  | CloseAiModal => setShowAiModal false s
  | EditAiPrompt text => setAiPrompt text s
  | AiGenerate calls =>
      (* the button is disabled while loading and while the prompt is blank *)
      if aiLoading s || negb (JsString.truthy (Js.trim (aiPrompt s))) then s
      else handleAiGenerate host calls s
  end.

End Lifecycle.

(** While there are macros, the selected id names one of them. *)
Definition selection_ok (s : App) : Prop :=
  macros s = [] \/ is_Some (selectedMacro s).

(** The stored document is the collection. *)
Definition persisted (s : App) : Prop :=
  localStorage s = Some (macros s).

(** The states of the application: the mount effect on the first render,
    then the events one at a time, an asynchronous handler running to its
    end before the next event. *)
Inductive app_reachable (host : Host) (as_Macro : JVal -> Macro.t) : App -> Prop :=
| app_reachable_mount stored saved :
    app_reachable host as_Macro (loadOnMount host as_Macro saved (first_render stored))
| app_reachable_handle e s :
    app_reachable host as_Macro s ->
    app_reachable host as_Macro (app_handle host as_Macro e s).

(** The macro shown in the editor exists while there are macros, and a
    collection that is not empty is the stored one. *)
Definition store_inv (s : App) : Prop :=
  selection_ok s /\ (macros s <> [] -> persisted s).

(** ** Notions for the scheduler *)

(** Every pending timer's handle was returned by [setTimeout] already. *)
Definition fresh (s : Visualizer) : Prop :=
  forall t, is_Some (timers s !! t) -> (t < nextTimer s)%nat.

(** No timer for a next step is pending. *)
Definition no_next_step (s : Visualizer) : Prop :=
  forall t timer index, timers s !! t = Some timer -> callback timer <> NextStep index.

(** The timer [t] is the one pending timer for a next step, and that step
    is [index]. *)
Definition only_next_step (s : Visualizer) (t index : nat) : Prop :=
  (exists ms, timers s !! t = Some {| delay := ms; callback := NextStep index |}) /\
  forall t' timer index',
    timers s !! t' = Some timer -> callback timer = NextStep index' -> t' = t.

(** The label that a Key action shows, line 150. *)
Definition key_label (action : MacroAction.t) : string :=
  normalizeKey (string_or (MacroAction.key action) "").

(** The button that a Click action shows, line 169. *)
Definition button_name (action : MacroAction.t) : string :=
  string_or (MacroAction.button action) "left".



(** What holds of the visual state in every state of a run: handles are
    tracked and fresh, the playing flag and its ref agree, the cursor is -1
    or the index of an action, the active keys and buttons are those of Key
    and Click actions of the list, and a shown scroll indicator has a timer
    that will clear it. *)
Definition visual_inv (actions : list MacroAction.t) (s : Visualizer) : Prop :=
  tracked s /\ fresh s /\ isPlaying s = isPlayingRef s
  /\ (currentIndex s = -1 \/ 0 <= currentIndex s < Z.of_nat (length actions))
  /\ (forall k, k ∈ activeKeys s ->
        exists a, a ∈ actions /\ Js.is_string (MacroAction.type a) "KEY" = true
                  /\ k = key_label a)
  /\ (forall b, b ∈ activeMouseBtns s ->
        exists a, a ∈ actions /\ Js.is_string (MacroAction.type a) "CLICK" = true
                  /\ b = button_name a)
  /\ (scrollState s <> None ->
        exists t ms, timers s !! t = Some {| delay := ms; callback := ClearScroll |}).

(** While playing, exactly one timer for a next step is pending, for the
    step after the cursor; otherwise none is. *)
Definition run_inv (actions : list MacroAction.t) (s : Visualizer) : Prop :=
  if isPlayingRef s
  then exists t index,
         only_next_step s t index /\ (1 <= index <= length actions)%nat
         /\ currentIndex s = Z.of_nat index - 1
  else no_next_step s.

(** A scroll by 3 notches up, for the examples. *)
Definition scroll3 : MacroAction.t :=
  {| MacroAction.id := "s1"; MacroAction.type := JStr "SCROLL";
     MacroAction.actionState := None; MacroAction.button := None;
     MacroAction.duration := None; MacroAction.x := None; MacroAction.y := None;
     MacroAction.absolute := None; MacroAction.key := None;
     MacroAction.scrollAmount := Some (Int 3) |}.


(** ** Notions for the normalizer's output *)

(** The shape of an action that [sanitize] emits: the synthetic Delay with
    a positive duration, or an action with every property present, a state
    among 'click', 'down' and 'up', [button] and [key] in lower case, and
    duration 0 unless the state is 'click'. *)
Definition normal_form (action : MacroAction.t) : Prop :=
  (exists id d, action = delay_literal id (Int d) /\ 0 < d)
  \/
  (exists state button key,
     MacroAction.actionState action = Some state
     /\ (state = "click" \/ state = "down" \/ state = "up")
     /\ MacroAction.button action = Some button /\ toLowerCase button = button
     /\ MacroAction.key action = Some key /\ toLowerCase key = key
     /\ is_Some (MacroAction.duration action)
     /\ is_Some (MacroAction.x action) /\ is_Some (MacroAction.y action)
     /\ is_Some (MacroAction.absolute action)
     /\ is_Some (MacroAction.scrollAmount action)
     /\ (state <> "click" -> MacroAction.duration action = Some (Int 0))).

(** ** Notions and examples for the application *)

(** A host whose service answers with a text that [JSON.parse] reads as a
    main sequence of one held key and a release sequence of one click. *)
Definition answering_host : Host :=
  {| API_KEY := Some "key";
     generateContent := fun _ => Ok (Some "the response text");
     JSON_parse := fun _ =>
       Some (JObj [("mainSequence",
                    JArr [JObj [("type", JStr "KEY"); ("key", JStr "W");
                                ("duration", JNum (Int 2000))]]);
                   ("releaseSequence",
                    JArr [JObj [("type", JStr "CLICK"); ("button", JStr "right")]])]);
     Math_random_toString36 := fun k =>
       nth k ["0.4fzyo82mvyr"; "0.ly1k03x9cq8"; "0.07tqe5hd2wn"; "0.q8s4b6j1zu"] "0" |}.

(** The macro with the generated actions appended, lines 284-290. *)
Definition appended (mainActions releaseActions : list MacroAction.t) (m : Macro.t)
  : Macro.t :=
  {| Macro.id := Macro.id m; Macro.name := Macro.name m;
     Macro.triggerKey := Macro.triggerKey m; Macro.loopMode := Macro.loopMode m;
     Macro.actions := (Macro.actions m ++ mainActions)%list;
     Macro.releaseActions := (Macro.releaseActions m ++ releaseActions)%list |}.

(** The macro with one of its two lists replaced. *)
Definition with_list (view : EditView) (l : list MacroAction.t) (m : Macro.t) : Macro.t :=
  match view with
  | Main =>
      {| Macro.id := Macro.id m; Macro.name := Macro.name m;
         Macro.triggerKey := Macro.triggerKey m; Macro.loopMode := Macro.loopMode m;
         Macro.actions := l; Macro.releaseActions := Macro.releaseActions m |}
  | Release =>
      {| Macro.id := Macro.id m; Macro.name := Macro.name m;
         Macro.triggerKey := Macro.triggerKey m; Macro.loopMode := Macro.loopMode m;
         Macro.actions := Macro.actions m; Macro.releaseActions := l |}
  end.

(** The collection with [f] applied to the macro of id [id]. *)
Definition on_macro (id : string) (f : Macro.t -> Macro.t) (ms : list Macro.t)
  : list Macro.t :=
  List.map (fun m => if String.eqb (Macro.id m) id then f m else m) ms.

(** * Properties *)

(** Unfolds the plumbing of the computations. *)
Ltac run :=
  unfold mbind, mret, M_bind, M_ret, Result_bind, Result_ret, lift, generateId,
    push, nth_id in *.

(** Names the actions that an iteration has pushed. *)
Ltac emitted_list :=
  match goal with
  | |- exists _, Ok ((((?p ++ [?a]) ++ [?b]) ++ [?c])%list, _) = _ /\ _ => exists [a; b; c]
  | |- exists _, Ok (((?p ++ [?a]) ++ [?b])%list, _) = _ /\ _ => exists [a; b]
  | |- exists _, Ok ((?p ++ [?a])%list, _) = _ /\ _ => exists [a]
  end.

(** Each pushed action has the candidate's type or is the Delay literal. *)
Ltac types_ok :=
  repeat (apply Forall_cons_2; [first [left; reflexivity | right; by eexists _, _]|]);
  apply Forall_nil_2.

(** The result is the old list followed by the named actions. *)
Ltac pushed :=
  rewrite <- ?app_assoc; cbn [length app]; do 2 f_equal; lia.


(** ** Strings *)

Lemma lower_upper_char c : lower_char (upper_char c) = lower_char c.
Proof. destruct c as [[] [] [] [] [] [] [] []]; reflexivity. Qed.

Lemma upper_lower_char c : upper_char (lower_char c) = upper_char c.
Proof. destruct c as [[] [] [] [] [] [] [] []]; reflexivity. Qed.

Lemma upper_upper_char c : upper_char (upper_char c) = upper_char c.
Proof. destruct c as [[] [] [] [] [] [] [] []]; reflexivity. Qed.

Lemma toLowerCase_toUpperCase s : toLowerCase (toUpperCase s) = toLowerCase s.
Proof. induction s as [|c s IH]; simpl; [done|]. by rewrite lower_upper_char, IH. Qed.

Lemma toUpperCase_toLowerCase s : toUpperCase (toLowerCase s) = toUpperCase s.
Proof. induction s as [|c s IH]; simpl; [done|]. by rewrite upper_lower_char, IH. Qed.

Lemma toUpperCase_idemp s : toUpperCase (toUpperCase s) = toUpperCase s.
Proof. induction s as [|c s IH]; simpl; [done|]. by rewrite upper_upper_char, IH. Qed.

(** Comparing the upper-cased key with an upper-case word is comparing the
    lower-cased key with the word in lower case. *)
Lemma eqb_upper_lower k lo up :
  toUpperCase lo = up -> toLowerCase up = lo ->
  String.eqb (toUpperCase k) up = String.eqb lo (toLowerCase k).
Proof.
  intros Hup Hlo.
  destruct (String.eqb_spec (toUpperCase k) up) as [E|E];
    destruct (String.eqb_spec lo (toLowerCase k)) as [F|F]; try reflexivity.
  - exfalso. apply F. by rewrite <- Hlo, <- E, toLowerCase_toUpperCase.
  - exfalso. apply E. by rewrite <- Hup, F, toUpperCase_toLowerCase.
Qed.

Lemma normalizeKey_table k : normalizeKey k = spec_canonical_label k.
Proof.
  destruct k as [|c k]; [reflexivity|].
  unfold normalizeKey, spec_canonical_label. cbn [truthy negb].
  cbn [canonical_table table_lookup].
  generalize (String c k); intros key.
  rewrite (eqb_upper_lower _ " " " "), (eqb_upper_lower _ "control" "CONTROL"),
    (eqb_upper_lower _ "return" "RETURN"), (eqb_upper_lower _ "escape" "ESCAPE"),
    (eqb_upper_lower _ "delete" "DELETE"), (eqb_upper_lower _ "insert" "INSERT"),
    (eqb_upper_lower _ "arrowup" "ARROWUP"), (eqb_upper_lower _ "arrowdown" "ARROWDOWN"),
    (eqb_upper_lower _ "arrowleft" "ARROWLEFT"),
    (eqb_upper_lower _ "arrowright" "ARROWRIGHT"),
    (eqb_upper_lower _ "pageup" "PAGEUP"), (eqb_upper_lower _ "pagedown" "PAGEDOWN")
    by reflexivity.
  repeat match goal with
         | |- context [String.eqb ?a (toLowerCase key)] =>
             destruct (String.eqb a (toLowerCase key))
         end;
    reflexivity.
Qed.

Lemma normalizeKey_upper k : normalizeKey (toUpperCase k) = normalizeKey k.
Proof.
  destruct k as [|c k]; [reflexivity|].
  unfold normalizeKey. rewrite toUpperCase_idemp. reflexivity.
Qed.

Lemma normalizeKey_lower k : normalizeKey (toLowerCase k) = normalizeKey k.
Proof.
  destruct k as [|c k]; [reflexivity|].
  unfold normalizeKey. rewrite toUpperCase_toLowerCase. reflexivity.
Qed.

(** ** The playback scheduler *)

Section Scheduler.

Variable actions : list MacroAction.t.

Lemma tracked_same s s' :
  timers s' = timers s -> timeoutsRef s' = timeoutsRef s -> tracked s -> tracked s'.
Proof. unfold tracked. intros -> ->. auto. Qed.

Lemma tracked_schedule cb ms s :
  tracked s -> tracked (push_timeout (setTimeout cb ms s).1 (setTimeout cb ms s).2).
Proof.
  intros H t. cbn. intros Ht.
  destruct (decide (t = nextTimer s)) as [->|Hne]; [set_solver|].
  rewrite lookup_insert_ne in Ht by done. apply H in Ht. set_solver.
Qed.

Lemma tracked_clearTimeout s t : tracked s -> tracked (clearTimeout s t).
Proof.
  intros H t'. cbn. intros Ht'.
  destruct (decide (t = t')) as [->|Hne].
  - rewrite lookup_delete_eq in Ht'. by destruct Ht'.
  - rewrite lookup_delete_ne in Ht' by done. auto.
Qed.

Lemma timers_clear_all l : forall s t,
  timers (foldl clearTimeout s l) !! t = if decide (t ∈ l) then None else timers s !! t.
Proof.
  induction l as [|h l IH]; intros s t; cbn [foldl].
  - case_decide; [set_solver|done].
  - rewrite IH. cbn.
    destruct (decide (t ∈ l)) as [Hl|Hl], (decide (t ∈ h :: l)) as [Hhl|Hhl];
      [done|set_solver| |].
    + apply elem_of_cons in Hhl as [->|Hin]; [apply lookup_delete_eq|done].
    + apply lookup_delete_ne. set_solver.
Qed.

Lemma clear_all_frame l : forall s,
  let s' := foldl clearTimeout s l in
  currentIndex s' = currentIndex s /\ isPlaying s' = isPlaying s /\
  activeKeys s' = activeKeys s /\ activeMouseBtns s' = activeMouseBtns s /\
  scrollState s' = scrollState s /\ isPlayingRef s' = isPlayingRef s /\
  timeoutsRef s' = timeoutsRef s /\ nextTimer s' = nextTimer s.
Proof.
  induction l as [|h l IH]; intros s; cbn [foldl]; [done|].
  specialize (IH (clearTimeout s h)). cbn in IH. exact IH.
Qed.

Lemma stop_timers s t :
  timers (stop s) !! t = if decide (t ∈ timeoutsRef s) then None else timers s !! t.
Proof. unfold stop. cbn. by rewrite timers_clear_all. Qed.

Lemma stop_no_timers s : tracked s -> timers (stop s) = ∅.
Proof.
  intros H. apply map_eq. intros t. rewrite stop_timers, lookup_empty.
  case_decide as Hin; [done|].
  destruct (timers s !! t) eqn:E; [|done].
  exfalso. apply Hin, H. by rewrite E.
Qed.

Lemma tracked_no_timers s : timers s = ∅ -> tracked s.
Proof. intros E t. rewrite E, lookup_empty. by intros []. Qed.

Lemma stop_tracked s : tracked s -> tracked (stop s).
Proof. intros H. by apply tracked_no_timers, stop_no_timers. Qed.

Lemma reset_tracked s : tracked s -> tracked (reset s).
Proof. intros H. apply (tracked_same (stop s)); [done..|by apply stop_tracked]. Qed.

Lemma runStep_effects_tracked action s :
  tracked s -> tracked (runStep_effects action s).
Proof.
  intros H. unfold runStep_effects.
  repeat case_match; subst;
    try assumption;
    try (by eapply tracked_same; [| |exact H]);
    try (match goal with
         | E : setTimeout ?cb ?ms ?s0 = (?t, ?s1) |- _ =>
             pose proof (tracked_schedule cb ms s0) as Hs;
             rewrite E in Hs; cbn [fst snd] in Hs
         end;
         eapply tracked_same; [| |apply Hs]; [done..|];
         try assumption; by eapply tracked_same; [| |exact H]).
Qed.

Lemma runStep_tracked index s : tracked s -> tracked (runStep actions index s).
Proof.
  intros H. unfold runStep.
  destruct (negb (isPlayingRef s)); [done|].
  destruct (actions !! index) as [action|].
  - apply tracked_schedule, runStep_effects_tracked.
    by eapply tracked_same; [| |exact H].
  - by eapply tracked_same; [| |exact H].
Qed.

Lemma play_tracked s : tracked s -> tracked (play actions s).
Proof.
  intros H. unfold play. destruct (isPlayingRef s); [done|].
  apply runStep_tracked. eapply tracked_same; [| |apply (reset_tracked s H)]; done.
Qed.

Lemma fire_tracked t s : tracked s -> tracked (fire actions t s).
Proof.
  intros H. unfold fire. destruct (timers s !! t) as [timer|]; [|done].
  pose proof (tracked_clearTimeout s t H) as Hc.
  destruct (callback timer); try (by eapply tracked_same; [| |exact Hc]).
  by apply runStep_tracked.
Qed.

Lemma reachable_tracked s : reachable actions s -> tracked s.
Proof.
  induction 1 as [|e s _ IH].
  - by apply tracked_no_timers.
  - destruct e; cbn [handle];
      auto using play_tracked, stop_tracked, reset_tracked, fire_tracked.
Qed.

End Scheduler.

Lemma stepDuration_spec action :
  stepDuration action =
  if Js.is_string (MacroAction.type action) "DELAY"
  then Int (Z.max 100 (duration_ms action))
  else Int 500.
Proof.
  unfold stepDuration, duration_ms, number_or_zero, ActionType.DELAY.
  destruct (Js.is_string _ _); [|done].
  destruct (MacroAction.duration action) as [[|d]|]; cbn; try done.
  unfold Js.number_or. cbn. destruct (Z.eqb_spec d 0) as [->|]; done.
Qed.

(** The timers that the visual effects of a step add are release and
    scroll timers; the others were there before. *)
Lemma runStep_effects_timers action s t timer :
  timers (runStep_effects action s) !! t = Some timer ->
  (forall j, callback timer <> NextStep j) \/ timers s !! t = Some timer.
Proof.
  unfold runStep_effects, setTimeout, push_timeout.
  repeat case_match; subst; cbn; auto;
    (destruct (decide (t = nextTimer s)) as [->|Hne];
     [rewrite lookup_insert_eq; intros [= <-]; left; intros j; cbn; discriminate
     |rewrite lookup_insert_ne by done; auto]).
Qed.

(** C4: a step that runs the action at [index] arms exactly one timer for
    the next step, and its delay is max(100, duration) for a Delay action and
    500 for any other kind. *)
Theorem runStep_wait actions index action s :
  isPlayingRef s = true ->
  actions !! index = Some action ->
  exists t,
    timers (runStep actions index s) !! t =
      Some {| delay := if Js.is_string (MacroAction.type action) "DELAY"
                       then Int (Z.max 100 (duration_ms action))
                       else Int 500;
              callback := NextStep (index + 1) |}
    /\ t ∈ timeoutsRef (runStep actions index s)
    /\ forall t' timer j,
         timers (runStep actions index s) !! t' = Some timer ->
         callback timer = NextStep j ->
         t' = t \/ timers s !! t' = Some timer.
Proof.
  intros Hplay Hact. unfold runStep. rewrite Hplay, Hact. cbn [negb].
  set (s1 := runStep_effects action _).
  exists (nextTimer s1). cbn. split; [|split].
  - rewrite lookup_insert_eq, stepDuration_spec. done.
  - set_solver.
  - intros t' timer j Ht' Hcb.
    destruct (decide (t' = nextTimer s1)) as [|Hne]; [by left|right].
    rewrite lookup_insert_ne in Ht' by done.
    apply runStep_effects_timers in Ht' as [Hno|Ht']; [by destruct (Hno j)|].
    exact Ht'.
Qed.

Lemma runStep_wait_witness :
  exists t,
    timers (runStep [delay50] 0 (set_isPlayingRef true mounted)) !! t =
      Some {| delay := Int 100; callback := NextStep 1 |}
    /\ t ∈ timeoutsRef (runStep [delay50] 0 (set_isPlayingRef true mounted))
    /\ forall t' timer j,
         timers (runStep [delay50] 0 (set_isPlayingRef true mounted)) !! t' = Some timer ->
         callback timer = NextStep j ->
         t' = t \/ timers (set_isPlayingRef true mounted) !! t' = Some timer.
Proof.
  apply (runStep_wait [delay50] 0 delay50 (set_isPlayingRef true mounted));
    reflexivity.
Defined.

(** C8: in every state of a run, [stop] leaves no timer pending (so that no
    callback armed before it can run any more), empties [timeoutsRef],
    clears the scroll indicator and the playing flags, and leaves the active
    keys, the active buttons and the cursor as they were. *)
Theorem stop_cancels_timers_keeps_active actions s :
  reachable actions s ->
  timers (stop s) = ∅ /\
  (forall t, fire actions t (stop s) = stop s) /\
  timeoutsRef (stop s) = [] /\
  scrollState (stop s) = None /\
  activeKeys (stop s) = activeKeys s /\
  activeMouseBtns (stop s) = activeMouseBtns s /\
  currentIndex (stop s) = currentIndex s /\
  isPlayingRef (stop s) = false /\
  isPlaying (stop s) = false.
Proof.
  intros Hreach.
  assert (timers (stop s) = ∅) as Hnone by (by eapply stop_no_timers, reachable_tracked).
  split; [done|].
  split; [intros t; unfold fire; by rewrite Hnone, lookup_empty|].
  unfold stop. cbn.
  destruct (clear_all_frame (timeoutsRef s)
              (setIsPlaying false (set_isPlayingRef false s)))
    as (Hidx & Hplaying & Hkeys & Hbtns & _ & Href & _). cbn in *.
  repeat split; assumption.
Qed.

(** Right after [play] on a single key click, "A" is active and two timers
    are pending (the release of the key and the next step). *)
Lemma play_key_a_click :
  "A" ∈ activeKeys (play [key_a_click] mounted) /\
  timeoutsRef (play [key_a_click] mounted) = [0; 1]%nat /\
  (callback <$> timers (play [key_a_click] mounted) !! 0%nat) = Some (ReleaseKey "A") /\
  (callback <$> timers (play [key_a_click] mounted) !! 1%nat) = Some (NextStep 1).
Proof. cbn. split; [set_solver|done]. Qed.

Lemma stop_cancels_timers_keeps_active_witness :
  timers (stop (play [key_a_click] mounted)) = ∅ /\
  (forall t, fire [key_a_click] t (stop (play [key_a_click] mounted))
             = stop (play [key_a_click] mounted)) /\
  timeoutsRef (stop (play [key_a_click] mounted)) = [] /\
  scrollState (stop (play [key_a_click] mounted)) = None /\
  activeKeys (stop (play [key_a_click] mounted)) = activeKeys (play [key_a_click] mounted) /\
  activeMouseBtns (stop (play [key_a_click] mounted))
    = activeMouseBtns (play [key_a_click] mounted) /\
  currentIndex (stop (play [key_a_click] mounted))
    = currentIndex (play [key_a_click] mounted) /\
  isPlayingRef (stop (play [key_a_click] mounted)) = false /\
  isPlaying (stop (play [key_a_click] mounted)) = false.
Proof.
  apply (stop_cancels_timers_keeps_active [key_a_click]).
  apply (reachable_handle [key_a_click] Play mounted), reachable_mounted.
Defined.

(** What a step does to the active keys: nothing, or it adds or removes
    the canonical label of the action's key. *)
Lemma runStep_effects_activeKeys action s :
  let keyName := normalizeKey (string_or (MacroAction.key action) "") in
  activeKeys s ∖ {[keyName]} ⊆ activeKeys (runStep_effects action s) /\
  activeKeys (runStep_effects action s) ⊆ {[keyName]} ∪ activeKeys s.
Proof.
  unfold runStep_effects, setTimeout, push_timeout.
  repeat case_match; cbn; clear; set_unfold; intuition.
Qed.

(** C9: [normalizeKey] is the canonicalization table read without regard to
    case, with upper-casing for the tokens that are not listed and the
    empty string for the empty string; the label is what a step adds to or
    removes from the active keys. *)
Theorem normalizeKey_canonical :
  (forall k, normalizeKey k = spec_canonical_label k) /\
  (forall k, normalizeKey (toUpperCase k) = normalizeKey k) /\
  (forall k, normalizeKey (toLowerCase k) = normalizeKey k) /\
  normalizeKey "" = "" /\
  normalizeKey "q" = "Q" /\
  normalizeKey "space" = "SPACE" /\
  List.map normalizeKey
    [" "; "Control"; "Return"; "Escape"; "Delete"; "Insert"; "ArrowUp"; "ArrowDown";
     "ArrowLeft"; "ArrowRight"; "PageUp"; "PageDown"]
  = ["SPACE"; "CTRL"; "ENTER"; "ESC"; "DEL"; "INS"; "UP"; "DOWN"; "LEFT"; "RIGHT";
     "PGUP"; "PGDN"] /\
  (forall action s,
     activeKeys s ∖ {[normalizeKey (string_or (MacroAction.key action) "")]}
       ⊆ activeKeys (runStep_effects action s) /\
     activeKeys (runStep_effects action s)
       ⊆ {[normalizeKey (string_or (MacroAction.key action) "")]} ∪ activeKeys s).
Proof.
  split; [exact normalizeKey_table|].
  split; [exact normalizeKey_upper|].
  split; [exact normalizeKey_lower|].
  repeat (split; [reflexivity|]).
  exact runStep_effects_activeKeys.
Qed.

(** ** The normalizer *)

Lemma read_digits_string_of_uint d : Js.read_digits (NilEmpty.string_of_uint d) = d.
Proof. induction d; cbn; congruence. Qed.

Lemma parseInt_string_of_uint d :
  d <> Nil -> Js.parseInt (NilEmpty.string_of_uint d) = Int (Z.of_uint d).
Proof.
  intros Hd. destruct d; [done|..];
    unfold Js.parseInt; cbn [NilEmpty.string_of_uint Js.skip_space];
    match goal with |- context [Js.is_space ?c] => change (Js.is_space c) with false end;
    cbv iota beta; cbn [Js.read_digits Js.digit];
    rewrite read_digits_string_of_uint; reflexivity.
Qed.

Lemma parseInt_minus_string_of_uint d :
  d <> Nil -> Js.parseInt (String "-" (NilEmpty.string_of_uint d)) = Int (- Z.of_uint d).
Proof.
  intros Hd. unfold Js.parseInt. cbn [Js.skip_space].
  change (Js.is_space "-") with false. cbv iota beta.
  rewrite read_digits_string_of_uint. destruct d; done.
Qed.

Lemma NilZero_string_of_uint_nonnil d :
  d <> Nil -> NilZero.string_of_uint d = NilEmpty.string_of_uint d.
Proof. destruct d; done. Qed.

(** [parseInt(String(z), 10)] is [z] for an integer [z]. *)
Lemma parseInt_String_int z : Js.parseInt (Js.String_ (JNum (Int z))) = Int z.
Proof.
  cbn [Js.String_]. destruct z as [|p|p]; cbn [Z.to_int NilZero.string_of_int].
  - reflexivity.
  - rewrite NilZero_string_of_uint_nonnil by apply Unsigned.to_uint_nonnil.
    rewrite parseInt_string_of_uint by apply Unsigned.to_uint_nonnil.
    unfold Z.of_uint. by rewrite Unsigned.of_to.
  - rewrite NilZero_string_of_uint_nonnil by apply Unsigned.to_uint_nonnil.
    rewrite parseInt_minus_string_of_uint by apply Unsigned.to_uint_nonnil.
    unfold Z.of_uint. by rewrite Unsigned.of_to.
Qed.

(** A numeric [duration] or [scrollAmount] is read as it is. *)
Lemma int_or_zero_int z : int_or_zero (JNum (Int z)) = Int z.
Proof.
  unfold int_or_zero. cbn [Js.truthy Js.number_truthy].
  destruct (Z.eqb_spec z 0) as [->|Hz]; cbn [negb]; [done|].
  apply parseInt_String_int.
Qed.

(** An absent, [null], empty or zero field is read as 0. *)
Lemma int_or_zero_falsy v : Js.truthy v = false -> int_or_zero v = Int 0.
Proof. unfold int_or_zero. by intros ->. Qed.

Lemma lower_or_falsy v fallback :
  Js.truthy v = false -> lower_or v fallback = Ok (toLowerCase fallback).
Proof. unfold lower_or, Js.or_else. by intros ->. Qed.

Lemma lower_or_string s fallback :
  s <> "" -> lower_or (JStr s) fallback = Ok (toLowerCase s).
Proof. destruct s; [done|]. reflexivity. Qed.

(** C1: a Click or Key candidate without a state (or with 'click') whose
    duration exceeds 10 becomes down, Delay(duration), up; at duration 10 it
    stays one atomic action in state 'click'. *)
Theorem lazy_hold_expansion host fields processed n button key d :
  Js.assoc "type" fields = JStr "CLICK" \/ Js.assoc "type" fields = JStr "KEY" ->
  Js.truthy (Js.assoc "actionState" fields) = false
    \/ Js.assoc "actionState" fields = JStr "click" ->
  lower_or (Js.assoc "button" fields) "left" = Ok button ->
  lower_or (Js.assoc "key" fields) "" = Ok key ->
  int_or_zero (Js.assoc "duration" fields) = Int d ->
  (10 < d ->
   sanitize_body host (JObj fields) processed n =
   Ok ((processed ++
        [ {| MacroAction.id := nth_id host n;
             MacroAction.type := Js.assoc "type" fields;
             MacroAction.actionState := Some "down";
             MacroAction.button := Some button;
             MacroAction.duration := Some (Int 0);
             MacroAction.x := Some (JNum (Int 0));
             MacroAction.y := Some (JNum (Int 0));
             MacroAction.absolute := Some (JBool false);
             MacroAction.key := Some key;
             MacroAction.scrollAmount := Some (Int 0) |};
          delay_literal (nth_id host (n + 1)) (Int d);
          {| MacroAction.id := nth_id host (n + 2);
             MacroAction.type := Js.assoc "type" fields;
             MacroAction.actionState := Some "up";
             MacroAction.button := Some button;
             MacroAction.duration := Some (Int 0);
             MacroAction.x := Some (JNum (Int 0));
             MacroAction.y := Some (JNum (Int 0));
             MacroAction.absolute := Some (JBool false);
             MacroAction.key := Some key;
             MacroAction.scrollAmount := Some (Int 0) |} ])%list,
       (n + 3)%nat))
  /\
  (d = 10 ->
   sanitize_body host (JObj fields) processed n =
   Ok ((processed ++
        [ {| MacroAction.id := nth_id host n;
             MacroAction.type := Js.assoc "type" fields;
             MacroAction.actionState := Some "click";
             MacroAction.button := Some button;
             MacroAction.duration := Some (Int 0);
             MacroAction.x := Some (Js.or_else (Js.assoc "x" fields) (JNum (Int 0)));
             MacroAction.y := Some (Js.or_else (Js.assoc "y" fields) (JNum (Int 0)));
             MacroAction.absolute :=
               Some (Js.or_else (Js.assoc "absolute" fields) (JBool false));
             MacroAction.key := Some key;
             MacroAction.scrollAmount :=
               Some (int_or_zero (Js.assoc "scrollAmount" fields)) |} ])%list,
       (n + 1)%nat)).
Proof.
  intros Hty Hst Hb Hk Hd.
  assert (lower_or (Js.assoc "actionState" fields) "click" = Ok "click") as Hs.
  { destruct Hst as [Hst|Hst]; [by rewrite lower_or_falsy|by rewrite Hst]. }
  assert (Js.is_string (Js.assoc "type" fields) "CLICK"
          || Js.is_string (Js.assoc "type" fields) "KEY" = true) as Hkind.
  { destruct Hty as [-> | ->]; reflexivity. }
  assert (Js.is_string (Js.assoc "type" fields) "DELAY" = false) as Hnd.
  { destruct Hty as [-> | ->]; reflexivity. }
  split; intros Hlt; unfold sanitize_body; run; cbn [Js.get];
    rewrite Hb, Hk, Hd, Hs, Hkind; cbn [String.eqb Ascii.eqb Bool.eqb orb andb Js.gt].
  - rewrite (proj2 (Z.ltb_lt 10 d) Hlt). rewrite <- !app_assoc.
    replace (n + 1)%nat with (S n) by lia. replace (n + 2)%nat with (S (S n)) by lia.
    replace (n + 3)%nat with (S (S (S n))) by lia. reflexivity.
  - subst d. cbn [Z.ltb Z.compare Pos.compare Pos.compare_cont]. rewrite Hnd.
    replace (n + 1)%nat with (S n) by lia. reflexivity.
Qed.

Lemma lazy_hold_expansion_witness :
  sanitize_body sample_host
    (JObj [("type", JStr "KEY"); ("key", JStr "W"); ("duration", JNum (Int 2000))]) [] 0%nat
  = Ok ([ {| MacroAction.id := "4fzyo82mv"; MacroAction.type := JStr "KEY";
             MacroAction.actionState := Some "down"; MacroAction.button := Some "left";
             MacroAction.duration := Some (Int 0);
             MacroAction.x := Some (JNum (Int 0)); MacroAction.y := Some (JNum (Int 0));
             MacroAction.absolute := Some (JBool false); MacroAction.key := Some "w";
             MacroAction.scrollAmount := Some (Int 0) |};
          delay_literal "ly1k03x9c" (Int 2000);
          {| MacroAction.id := "07tqe5hd2"; MacroAction.type := JStr "KEY";
             MacroAction.actionState := Some "up"; MacroAction.button := Some "left";
             MacroAction.duration := Some (Int 0);
             MacroAction.x := Some (JNum (Int 0)); MacroAction.y := Some (JNum (Int 0));
             MacroAction.absolute := Some (JBool false); MacroAction.key := Some "w";
             MacroAction.scrollAmount := Some (Int 0) |} ], 3%nat)
  /\
  sanitize_body sample_host
    (JObj [("type", JStr "KEY"); ("duration", JNum (Int 10))]) [] 0%nat
  = Ok ([ {| MacroAction.id := "4fzyo82mv"; MacroAction.type := JStr "KEY";
             MacroAction.actionState := Some "click"; MacroAction.button := Some "left";
             MacroAction.duration := Some (Int 0);
             MacroAction.x := Some (JNum (Int 0)); MacroAction.y := Some (JNum (Int 0));
             MacroAction.absolute := Some (JBool false); MacroAction.key := Some "";
             MacroAction.scrollAmount := Some (Int 0) |} ], 1%nat).
Proof.
  split.
  - apply (lazy_hold_expansion sample_host
             [("type", JStr "KEY"); ("key", JStr "W"); ("duration", JNum (Int 2000))]
             [] 0%nat "left" "w" 2000);
      first [reflexivity | (right; reflexivity) | (left; reflexivity) | lia].
  - apply (lazy_hold_expansion sample_host
             [("type", JStr "KEY"); ("duration", JNum (Int 10))] [] 0%nat "left" "" 10);
      first [reflexivity | (right; reflexivity) | (left; reflexivity) | lia].
Defined.

(** C2: a candidate in state 'down' or 'up' becomes one action in that state
    with duration 0; a 'down' with a positive duration is followed by one
    Delay of that duration, and by nothing else. *)
Theorem explicit_state_passthrough host fields processed n button key state :
  lower_or (Js.assoc "button" fields) "left" = Ok button ->
  lower_or (Js.assoc "key" fields) "" = Ok key ->
  lower_or (Js.assoc "actionState" fields) "click" = Ok state ->
  state = "down" \/ state = "up" ->
  let explicit :=
    {| MacroAction.id := nth_id host n;
       MacroAction.type := Js.assoc "type" fields;
       MacroAction.actionState := Some state;
       MacroAction.button := Some button;
       MacroAction.duration := Some (Int 0);
       MacroAction.x := Some (Js.or_else (Js.assoc "x" fields) (JNum (Int 0)));
       MacroAction.y := Some (Js.or_else (Js.assoc "y" fields) (JNum (Int 0)));
       MacroAction.absolute :=
         Some (Js.or_else (Js.assoc "absolute" fields) (JBool false));
       MacroAction.key := Some key;
       MacroAction.scrollAmount :=
         Some (int_or_zero (Js.assoc "scrollAmount" fields)) |} in
  (forall d,
     state = "down" -> int_or_zero (Js.assoc "duration" fields) = Int d -> 0 < d ->
     sanitize_body host (JObj fields) processed n =
     Ok ((processed ++ [explicit; delay_literal (nth_id host (n + 1)) (Int d)])%list,
         (n + 2)%nat))
  /\
  (state = "up" \/ Js.gt (int_or_zero (Js.assoc "duration" fields)) 0 = false ->
   sanitize_body host (JObj fields) processed n =
   Ok ((processed ++ [explicit])%list, (n + 1)%nat)).
Proof.
  intros Hb Hk Hs Hstate explicit. subst explicit.
  split.
  - intros d -> Hd Hpos. unfold sanitize_body; run; cbn [Js.get].
    rewrite Hb, Hk, Hd, Hs. cbn [String.eqb Ascii.eqb Bool.eqb orb andb Js.gt].
    rewrite (proj2 (Z.ltb_lt 0 d) Hpos). cbn [andb]. rewrite <- !app_assoc.
    replace (n + 1)%nat with (S n) by lia. replace (n + 2)%nat with (S (S n)) by lia.
    reflexivity.
  - intros Hno. unfold sanitize_body; run; cbn [Js.get].
    rewrite Hb, Hk, Hs.
    assert (String.eqb state "down" || String.eqb state "up" = true) as ->.
    { destruct Hstate as [-> | ->]; reflexivity. }
    assert (Js.gt (int_or_zero (Js.assoc "duration" fields)) 0 && String.eqb state "down"
            = false) as ->.
    { destruct Hno as [-> | ->]; [apply andb_false_r|reflexivity]. }
    replace (n + 1)%nat with (S n) by lia. reflexivity.
Qed.

Lemma explicit_state_passthrough_witness :
  sanitize_body sample_host
    (JObj [("type", JStr "CLICK"); ("actionState", JStr "down");
           ("duration", JNum (Int 500))]) [] 0%nat
  = Ok ([ {| MacroAction.id := "4fzyo82mv"; MacroAction.type := JStr "CLICK";
             MacroAction.actionState := Some "down"; MacroAction.button := Some "left";
             MacroAction.duration := Some (Int 0);
             MacroAction.x := Some (JNum (Int 0)); MacroAction.y := Some (JNum (Int 0));
             MacroAction.absolute := Some (JBool false); MacroAction.key := Some "";
             MacroAction.scrollAmount := Some (Int 0) |};
          delay_literal "ly1k03x9c" (Int 500) ], 2%nat)
  /\
  sanitize_body sample_host
    (JObj [("type", JStr "CLICK"); ("actionState", JStr "up");
           ("duration", JNum (Int 500))]) [] 0%nat
  = Ok ([ {| MacroAction.id := "4fzyo82mv"; MacroAction.type := JStr "CLICK";
             MacroAction.actionState := Some "up"; MacroAction.button := Some "left";
             MacroAction.duration := Some (Int 0);
             MacroAction.x := Some (JNum (Int 0)); MacroAction.y := Some (JNum (Int 0));
             MacroAction.absolute := Some (JBool false); MacroAction.key := Some "";
             MacroAction.scrollAmount := Some (Int 0) |} ], 1%nat).
Proof.
  split.
  - apply (proj1 (explicit_state_passthrough sample_host
             [("type", JStr "CLICK"); ("actionState", JStr "down");
              ("duration", JNum (Int 500))] [] 0%nat "left" "" "down"
             eq_refl eq_refl eq_refl (or_introl eq_refl)) 500);
      first [reflexivity | lia].
  - apply (proj2 (explicit_state_passthrough sample_host
             [("type", JStr "CLICK"); ("actionState", JStr "up");
              ("duration", JNum (Int 500))] [] 0%nat "left" "" "up"
             eq_refl eq_refl eq_refl (or_intror eq_refl))).
    left; reflexivity.
Defined.

Lemma number_or_100 duration :
  Js.number_or duration (Int 100) =
  match duration with NaN | Int 0 => Int 100 | Int d => Int d end.
Proof. destruct duration as [|[|p|p]]; reflexivity. Qed.

(** C3, as the code has it: in the default case one action is emitted, in
    state 'click', whose duration is the candidate's for a Delay (100 when it
    is missing, zero or not a number; a negative one is kept) and 0 for
    every other kind. *)
Theorem atomic_default host fields processed n button key state :
  lower_or (Js.assoc "button" fields) "left" = Ok button ->
  lower_or (Js.assoc "key" fields) "" = Ok key ->
  lower_or (Js.assoc "actionState" fields) "click" = Ok state ->
  state <> "down" -> state <> "up" ->
  (Js.is_string (Js.assoc "type" fields) "CLICK"
   || Js.is_string (Js.assoc "type" fields) "KEY")
  && Js.gt (int_or_zero (Js.assoc "duration" fields)) 10 = false ->
  sanitize_body host (JObj fields) processed n =
  Ok ((processed ++
       [ {| MacroAction.id := nth_id host n;
            MacroAction.type := Js.assoc "type" fields;
            MacroAction.actionState := Some "click";
            MacroAction.button := Some button;
            MacroAction.duration :=
              Some (atomic_duration (Js.assoc "type" fields)
                      (int_or_zero (Js.assoc "duration" fields)));
            MacroAction.x := Some (Js.or_else (Js.assoc "x" fields) (JNum (Int 0)));
            MacroAction.y := Some (Js.or_else (Js.assoc "y" fields) (JNum (Int 0)));
            MacroAction.absolute :=
              Some (Js.or_else (Js.assoc "absolute" fields) (JBool false));
            MacroAction.key := Some key;
            MacroAction.scrollAmount :=
              Some (int_or_zero (Js.assoc "scrollAmount" fields)) |} ])%list,
      (n + 1)%nat).
Proof.
  intros Hb Hk Hs Hnd Hnu Hlazy.
  unfold sanitize_body; run; cbn [Js.get]. rewrite Hb, Hk, Hs, Hlazy.
  apply String.eqb_neq in Hnd, Hnu. rewrite Hnd, Hnu. cbn [orb].
  unfold atomic_duration. rewrite number_or_100.
  replace (n + 1)%nat with (S n) by lia. reflexivity.
Qed.

Lemma atomic_default_witness :
  sanitize_body sample_host
    (JObj [("type", JStr "DELAY"); ("duration", JNum (Int 250))]) [] 0%nat
  = Ok ([ {| MacroAction.id := "4fzyo82mv"; MacroAction.type := JStr "DELAY";
             MacroAction.actionState := Some "click"; MacroAction.button := Some "left";
             MacroAction.duration := Some (Int 250);
             MacroAction.x := Some (JNum (Int 0)); MacroAction.y := Some (JNum (Int 0));
             MacroAction.absolute := Some (JBool false); MacroAction.key := Some "";
             MacroAction.scrollAmount := Some (Int 0) |} ], 1%nat)
  /\
  sanitize_body sample_host
    (JObj [("type", JStr "DELAY"); ("actionState", JStr "hold")]) [] 0%nat
  = Ok ([ {| MacroAction.id := "4fzyo82mv"; MacroAction.type := JStr "DELAY";
             MacroAction.actionState := Some "click"; MacroAction.button := Some "left";
             MacroAction.duration := Some (Int 100);
             MacroAction.x := Some (JNum (Int 0)); MacroAction.y := Some (JNum (Int 0));
             MacroAction.absolute := Some (JBool false); MacroAction.key := Some "";
             MacroAction.scrollAmount := Some (Int 0) |} ], 1%nat).
Proof.
  split.
  - apply (atomic_default sample_host
             [("type", JStr "DELAY"); ("duration", JNum (Int 250))] [] 0%nat
             "left" "" "click"); first [reflexivity | discriminate].
  - apply (atomic_default sample_host
             [("type", JStr "DELAY"); ("actionState", JStr "hold")] [] 0%nat
             "left" "" "hold"); first [reflexivity | discriminate].
Defined.

(** C3 as stated fails: a Delay candidate with the non-positive duration -5
    reaches the default case and keeps -5; it is not given 100. *)
Lemma atomic_default_negative_duration :
  exists action,
    sanitize sample_host
      (JArr [JObj [("type", JStr "DELAY"); ("duration", JNum (Int (-5)))]]) 0%nat
    = Ok ([action], 1%nat)
    /\ MacroAction.actionState action = Some "click"
    /\ MacroAction.duration action = Some (Int (-5))
    /\ MacroAction.duration action <> Some (Int 100).
Proof. eexists. split; [reflexivity|]. cbn. repeat split. discriminate. Qed.

(** C10: the emitted actions carry the candidate's [type] as it is, whatever
    it is (the synthetic Delay apart); a candidate whose [type] is neither
    "CLICK" nor "KEY" (missing, or any other value) and whose state is
    neither 'down' nor 'up' gives exactly one action with that [type], and
    no error. *)
Theorem type_copied_unchecked host fields processed n button key state :
  lower_or (Js.assoc "button" fields) "left" = Ok button ->
  lower_or (Js.assoc "key" fields) "" = Ok key ->
  lower_or (Js.assoc "actionState" fields) "click" = Ok state ->
  exists emitted,
    sanitize_body host (JObj fields) processed n
      = Ok ((processed ++ emitted)%list, (n + length emitted)%nat)
    /\ Forall (fun action =>
                 MacroAction.type action = Js.assoc "type" fields
                 \/ exists id duration, action = delay_literal id duration) emitted
    /\ (state <> "down" -> state <> "up" ->
        Js.is_string (Js.assoc "type" fields) "CLICK" = false ->
        Js.is_string (Js.assoc "type" fields) "KEY" = false ->
        exists action,
          emitted = [action]
          /\ MacroAction.type action = Js.assoc "type" fields
          /\ MacroAction.actionState action = Some "click").
Proof.
  intros Hb Hk Hs.
  unfold sanitize_body; run; cbn [Js.get]. rewrite Hb, Hk, Hs.
  destruct (String.eqb_spec state "down") as [Hd|Hd];
    [|destruct (String.eqb_spec state "up") as [Hu|Hu]]; cbn [orb].
  - destruct (Js.gt _ 0); cbn [andb]; emitted_list;
      (split; [pushed|]);
      (split; [types_ok|]); intros; congruence.
  - rewrite andb_false_r. emitted_list. split; [pushed|].
    split; [types_ok|]. intros; congruence.
  - destruct ((Js.is_string _ "CLICK" || Js.is_string _ "KEY") && Js.gt _ 10) eqn:Hlazy.
    + emitted_list. split; [pushed|].
      split; [types_ok|].
      intros _ _ Hc Hkey. rewrite Hc, Hkey in Hlazy. discriminate.
    + emitted_list. split; [pushed|].
      split; [types_ok|]. intros. eexists. repeat split.
Qed.

(** A record without [type] gives one action whose [type] is
    [undefined]. *)
Lemma type_missing_example :
  exists action,
    sanitize sample_host (JArr [JObj [("x", JNum (Int 4)); ("y", JNum (Int 2))]]) 0%nat
    = Ok ([action], 1%nat)
    /\ MacroAction.type action = JUndefined
    /\ MacroAction.actionState action = Some "click"
    /\ MacroAction.x action = Some (JNum (Int 4)).
Proof. eexists. split; [reflexivity|]. repeat split. Qed.

Lemma type_copied_unchecked_witness :
  exists emitted,
    sanitize_body sample_host (JObj [("type", JStr "TELEPORT"); ("x", JNum (Int 4))]) []
      0%nat
      = Ok (([] ++ emitted)%list, (0 + length emitted)%nat)
    /\ Forall (fun action =>
                 MacroAction.type action = JStr "TELEPORT"
                 \/ exists id duration, action = delay_literal id duration) emitted
    /\ ("click" <> "down" -> "click" <> "up" ->
        Js.is_string (JStr "TELEPORT") "CLICK" = false ->
        Js.is_string (JStr "TELEPORT") "KEY" = false ->
        exists action,
          emitted = [action]
          /\ MacroAction.type action = JStr "TELEPORT"
          /\ MacroAction.actionState action = Some "click").
Proof.
  apply (type_copied_unchecked sample_host
           [("type", JStr "TELEPORT"); ("x", JNum (Int 4))] [] 0%nat "left" "" "click");
    reflexivity.
Defined.

(** *** Length and ids of the output *)

Lemma get_field a k : a <> JNull -> a <> JUndefined -> Js.get a k = Ok (field a k).
Proof. destruct a; done. Qed.

Lemma lower_or_text v fallback :
  text_or_falsy v = true -> exists s, lower_or v fallback = Ok s.
Proof.
  unfold lower_or, Js.or_else.
  destruct v as [| |b|n|s|l|f]; cbn; intros Htext; try discriminate.
  - by exists (toLowerCase fallback).
  - by exists (toLowerCase fallback).
  - destruct b; [discriminate|by exists (toLowerCase fallback)].
  - destruct (Js.number_truthy n); [discriminate|by exists (toLowerCase fallback)].
  - destruct (truthy s); [by exists (toLowerCase s)|by exists (toLowerCase fallback)].
Qed.

Lemma lower_or_not_text v fallback :
  text_or_falsy v = false -> lower_or v fallback = Throw TypeError.
Proof.
  unfold lower_or, Js.or_else. destruct v as [| |b|n|s|l|f]; cbn; try done.
  - by destruct b.
  - by destruct (Js.number_truthy n).
Qed.

(** An iteration on a value whose text fields can be lower-cased pushes one
    to three actions, with the next ids of the generator. *)
Lemma sanitize_body_emits host a processed n button key state :
  a <> JNull -> a <> JUndefined ->
  lower_or (field a "button") "left" = Ok button ->
  lower_or (field a "key") "" = Ok key ->
  lower_or (field a "actionState") "click" = Ok state ->
  exists emitted,
    sanitize_body host a processed n
      = Ok ((processed ++ emitted)%list, (n + length emitted)%nat)
    /\ (1 <= length emitted)%nat
    /\ List.map MacroAction.id emitted = List.map (nth_id host) (seq n (length emitted)).
Proof.
  intros Hnull Hundef Hb Hk Hs.
  unfold sanitize_body; run. rewrite !get_field by done. rewrite Hb, Hk, Hs.
  destruct (String.eqb state "down" || String.eqb state "up").
  - destruct (Js.gt _ 0 && _); emitted_list;
      (split; [pushed|split; [cbn; lia|reflexivity]]).
  - destruct ((Js.is_string _ "CLICK" || Js.is_string _ "KEY") && Js.gt _ 10);
      emitted_list; (split; [pushed|split; [cbn; lia|reflexivity]]).
Qed.

Lemma sanitize_body_accepted host a processed n :
  accepted a = true ->
  exists emitted,
    sanitize_body host a processed n
      = Ok ((processed ++ emitted)%list, (n + length emitted)%nat)
    /\ (1 <= length emitted)%nat
    /\ List.map MacroAction.id emitted = List.map (nth_id host) (seq n (length emitted)).
Proof.
  intros Hacc.
  assert (a <> JNull /\ a <> JUndefined) as [Hnull Hundef] by (by destruct a).
  assert (text_or_falsy (field a "button") = true /\ text_or_falsy (field a "key") = true
          /\ text_or_falsy (field a "actionState") = true) as (Hb & Hk & Hs).
  { destruct a; try done; cbn in Hacc;
      apply andb_prop in Hacc as [Hacc ?]; apply andb_prop in Hacc as [? ?]; done. }
  destruct (lower_or_text _ "left" Hb) as [button Hbutton].
  destruct (lower_or_text _ "" Hk) as [key Hkey].
  destruct (lower_or_text _ "click" Hs) as [state Hstate].
  by eapply sanitize_body_emits.
Qed.

Lemma sanitize_body_rejected host a processed n :
  accepted a = false -> sanitize_body host a processed n = Throw TypeError.
Proof.
  intros Hacc. unfold sanitize_body; run.
  assert (a = JNull \/ a = JUndefined \/ (a <> JNull /\ a <> JUndefined))
    as [->|[->|[Hnull Hundef]]] by (destruct a; auto); [done..|].
  rewrite !get_field by done.
  assert (text_or_falsy (field a "button") && text_or_falsy (field a "key")
          && text_or_falsy (field a "actionState") = false) as Htext
    by (by destruct a).
  destruct (text_or_falsy (field a "button")) eqn:Hb;
    [|by rewrite lower_or_not_text].
  destruct (lower_or_text _ "left" Hb) as [button ->].
  destruct (text_or_falsy (field a "key")) eqn:Hk;
    [|by rewrite lower_or_not_text].
  destruct (lower_or_text _ "" Hk) as [key ->].
  cbn in Htext. by rewrite lower_or_not_text.
Qed.

Lemma sanitize_loop_accepted host items : forall processed n,
  forallb accepted items = true ->
  exists emitted,
    sanitize_loop host items processed n
      = Ok ((processed ++ emitted)%list, (n + length emitted)%nat)
    /\ (length items <= length emitted)%nat
    /\ List.map MacroAction.id emitted = List.map (nth_id host) (seq n (length emitted)).
Proof.
  induction items as [|a items IH]; intros processed n Hall.
  - exists []. cbn. rewrite app_nil_r, Nat.add_0_r. done.
  - cbn in Hall. apply andb_prop in Hall as [Ha Hall].
    destruct (sanitize_body_accepted host a processed n Ha) as (e1 & Hbody & Hlen1 & Hids1).
    destruct (IH (processed ++ e1)%list (n + length e1)%nat Hall)
      as (e2 & Hloop & Hlen2 & Hids2).
    exists (e1 ++ e2)%list. split; [|split].
    + cbn [sanitize_loop]. unfold mbind, M_bind at 1. rewrite Hbody, Hloop.
      rewrite <- app_assoc, length_app, Nat.add_assoc. done.
    + rewrite length_app. cbn [length]. lia.
    + rewrite length_app, seq_app, !map_app, Hids1, Hids2. done.
Qed.

Lemma sanitize_loop_rejected host items : forall processed n,
  forallb accepted items = false ->
  sanitize_loop host items processed n = Throw TypeError.
Proof.
  induction items as [|a items IH]; intros processed n Hall; [done|].
  cbn [sanitize_loop]. unfold mbind, M_bind at 1.
  destruct (accepted a) eqn:Ha.
  - destruct (sanitize_body_accepted host a processed n Ha) as (e1 & -> & _).
    apply IH. cbn in Hall. by rewrite Ha in Hall.
  - by rewrite sanitize_body_rejected.
Qed.

(** C5, as the code has it: on a list whose elements the loop accepts,
    [sanitize] returns at least as many actions as there are elements; the
    ids are the generator's next draws, in order, and do not depend on the
    elements; they are pairwise distinct when those draws are, and non-empty
    when those draws are. *)
Theorem sanitize_length_and_ids host items n :
  forallb accepted items = true ->
  exists out,
    sanitize host (JArr items) n = Ok (out, (n + length out)%nat)
    /\ (length items <= length out)%nat
    /\ List.map MacroAction.id out = List.map (nth_id host) (seq n (length out))
    /\ ((forall i j, (n <= i < n + length out)%nat -> (n <= j < n + length out)%nat ->
                     nth_id host i = nth_id host j -> i = j) ->
        NoDup (List.map MacroAction.id out))
    /\ ((forall k, (n <= k < n + length out)%nat -> nth_id host k <> "") ->
        Forall (fun action => MacroAction.id action <> "") out).
Proof.
  intros Hall.
  destruct (sanitize_loop_accepted host items [] n Hall) as (out & Hrun & Hlen & Hids).
  exists out. cbn [sanitize]. rewrite Hrun. cbn [app].
  split; [done|]. split; [done|]. split; [done|]. split.
  - intros Hinj. rewrite Hids. apply NoDup_fmap_2_strong; [|apply NoDup_seq].
    intros i j Hi Hj. apply elem_of_seq in Hi, Hj. apply Hinj; lia.
  - intros Hne. apply Forall_forall. intros action Hin.
    apply (list_elem_of_fmap_2 MacroAction.id) in Hin.
    change (MacroAction.id <$> out) with (List.map MacroAction.id out) in Hin.
    rewrite Hids in Hin.
    apply list_elem_of_fmap in Hin as (k & -> & Hk). apply elem_of_seq in Hk.
    apply Hne. lia.
Qed.

Lemma sanitize_two_candidates :
  List.map MacroAction.id
    (match sanitize sample_host (JArr two_candidates) 0%nat with
     | Ok (out, _) => out
     | Throw _ => []
     end)
  = ["4fzyo82mv"; "ly1k03x9c"; "07tqe5hd2"; "q8s4b6j1z"].
Proof. reflexivity. Qed.

Lemma sanitize_length_and_ids_witness :
  exists out,
    sanitize sample_host (JArr two_candidates) 0%nat = Ok (out, (0 + length out)%nat)
    /\ (length two_candidates <= length out)%nat
    /\ List.map MacroAction.id out
       = List.map (nth_id sample_host) (seq 0%nat (length out))
    /\ ((forall i j, (0 <= i < 0 + length out)%nat -> (0 <= j < 0 + length out)%nat ->
                     nth_id sample_host i = nth_id sample_host j -> i = j) ->
        NoDup (List.map MacroAction.id out))
    /\ ((forall k, (0 <= k < 0 + length out)%nat -> nth_id sample_host k <> "") ->
        Forall (fun action => MacroAction.id action <> "") out).
Proof. apply (sanitize_length_and_ids sample_host two_candidates 0%nat). reflexivity. Defined.

(** C5 as stated fails: when [Math.random] returns the same number twice
    (here 0) two actions get the same id (here the empty one); and on an
    array with a [null] element there is no output at all. *)
Lemma sanitize_ids_not_unique :
  (exists first second,
     sanitize zero_random_host
       (JArr [JObj [("type", JStr "MOVE")]; JObj [("type", JStr "SCROLL")]]) 0%nat
     = Ok ([first; second], 2%nat)
     /\ MacroAction.id first = ""
     /\ MacroAction.id second = MacroAction.id first)
  /\ sanitize sample_host (JArr [JObj [("type", JStr "MOVE")]; JNull]) 0%nat
     = Throw TypeError.
Proof. split; [|reflexivity]. eexists _, _. split; [reflexivity|]. split; reflexivity. Qed.

(** ** Import *)

Lemma validate_macro_ok idx m :
  has_required_fields m = true -> validate_macro idx m = Ok (with_releaseActions m).
Proof.
  destruct m as [| | | | | |fields]; try done. cbn [has_required_fields].
  intros H. apply andb_prop in H as [H Hactions]. apply andb_prop in H as [H Htrigger].
  apply andb_prop in H as [Hid Hname].
  unfold validate_macro. cbn [Js.get mbind Result_bind].
  rewrite Hid, Hname, Htrigger, Hactions. reflexivity.
Qed.

Lemma validate_macro_fail idx m :
  has_required_fields m = false ->
  validate_macro idx m = Throw TypeError
  \/ validate_macro idx m = Throw (MissingFields (idx + 1)).
Proof.
  destruct m as [| | | | | |fields]; try (by left); try (by right).
  cbn [has_required_fields]. intros H. right.
  unfold validate_macro. cbn [Js.get mbind Result_bind].
  destruct (Js.truthy (Js.assoc "id" fields)); [|done].
  destruct (Js.truthy (Js.assoc "name" fields)); [|done].
  destruct (Js.truthy (Js.assoc "triggerKey" fields)); [|done].
  cbn in H. by rewrite H.
Qed.

Lemma validate_from_ok items : forall idx,
  forallb has_required_fields items = true ->
  validate_from idx items = Ok (List.map with_releaseActions items).
Proof.
  induction items as [|m items IH]; intros idx Hall; [done|].
  cbn in Hall. apply andb_prop in Hall as [Hm Hall].
  cbn [validate_from]. rewrite (validate_macro_ok _ _ Hm). cbn [mbind Result_bind].
  rewrite (IH _ Hall). reflexivity.
Qed.

Lemma validate_from_fail items : forall idx,
  forallb has_required_fields items = false ->
  exists e, validate_from idx items = Throw e.
Proof.
  induction items as [|m items IH]; intros idx Hall; [done|].
  cbn [validate_from]. destruct (has_required_fields m) eqn:Hm.
  - rewrite (validate_macro_ok _ _ Hm). cbn [mbind Result_bind].
    cbn in Hall. rewrite Hm in Hall. destruct (IH (S idx) Hall) as [e ->].
    by exists e.
  - destruct (validate_macro_fail idx m Hm) as [-> | ->]; by eexists.
Qed.

(** C7: an import whose text is not JSON, whose root is not an array, or one
    of whose elements lacks a non-empty id, name or triggerKey or an array
    actions changes neither the collection, nor the selection, nor the stored
    document; an element that passes is taken with [releaseActions]
    defaulted to the empty array when it is absent or not an array. *)
Theorem import_validation host as_Macro jsonString s :
  (JSON_parse host jsonString = None
   \/ (exists root, JSON_parse host jsonString = Some root /\ Js.isArray root = false)
   \/ (exists items, JSON_parse host jsonString = Some (JArr items)
                     /\ forallb has_required_fields items = false) ->
   import_aborted s (processImport host as_Macro jsonString s))
  /\
  (forall items,
     JsString.truthy (Js.trim jsonString) = true ->
     JSON_parse host jsonString = Some (JArr items) ->
     forallb has_required_fields items = true ->
     macros (processImport host as_Macro jsonString s)
     = List.map as_Macro (List.map with_releaseActions items))
  /\
  (forall idx fields,
     has_required_fields (JObj fields) = true ->
     Js.isArray (Js.assoc "releaseActions" fields) = false ->
     validate_macro idx (JObj fields)
     = Ok (JObj (set_field "releaseActions" (JArr []) fields))).
Proof.
  split; [|split].
  - intros Hfail. unfold processImport.
    destruct (negb (truthy jsonString) || negb (truthy (Js.trim jsonString))).
    { repeat split; try done. by exists AlertEmpty. }
    destruct Hfail as [-> | [(root & -> & Hroot) | (items & -> & Hitems)]].
    + repeat split; try done. by exists AlertNotJson.
    + destruct root; try discriminate; repeat split; try done; by exists AlertRootNotArray.
    + destruct (validate_from_fail items 0 Hitems) as [e ->].
      repeat split; try done. by exists (AlertValidationFailed e).
  - intros items Htrim Hparse Hitems. unfold processImport.
    assert (truthy jsonString = true) as ->.
    { destruct jsonString; [done|reflexivity]. }
    rewrite Htrim, Hparse, (validate_from_ok _ _ Hitems). cbn [negb orb].
    destruct (List.map as_Macro (List.map with_releaseActions items)) as [|first rest];
      reflexivity.
  - intros idx fields Hreq Hrel. rewrite (validate_macro_ok _ _ Hreq).
    unfold with_releaseActions. cbn [field spread_with]. by rewrite Hrel.
Qed.

(** An element without [triggerKey] is refused; one without
    [releaseActions] is taken, with the empty array. *)
Lemma validate_macro_examples :
  validate_macro 0
    (JObj [("id", JStr "m1"); ("name", JStr "Dash"); ("actions", JArr [])])
  = Throw (MissingFields 1)
  /\
  validate_macro 0
    (JObj [("id", JStr "m1"); ("name", JStr "Dash"); ("triggerKey", JStr "f2");
           ("actions", JArr [])])
  = Ok (JObj [("id", JStr "m1"); ("name", JStr "Dash"); ("triggerKey", JStr "f2");
              ("actions", JArr []); ("releaseActions", JArr [])])
  /\
  validate_macro 0
    (JObj [("id", JStr "m1"); ("name", JStr "Dash"); ("triggerKey", JStr "f2");
           ("releaseActions", JStr "none"); ("actions", JArr [])])
  = Ok (JObj [("id", JStr "m1"); ("name", JStr "Dash"); ("triggerKey", JStr "f2");
              ("releaseActions", JArr []); ("actions", JArr [])]).
Proof. repeat split. Qed.

Lemma import_validation_witness :
  import_aborted sample_app (processImport import_host read_Macro "oops" sample_app)
  /\ import_aborted sample_app (processImport import_host read_Macro "{}" sample_app)
  /\ import_aborted sample_app (processImport import_host read_Macro "[1, 2]" sample_app)
  /\ macros (processImport import_host read_Macro "[]" sample_app) = []
  /\ validate_macro 0
       (JObj [("id", JStr "m1"); ("name", JStr "Dash"); ("triggerKey", JStr "f2");
              ("actions", JArr [])])
     = Ok (JObj [("id", JStr "m1"); ("name", JStr "Dash"); ("triggerKey", JStr "f2");
                 ("actions", JArr []); ("releaseActions", JArr [])]).
Proof.
  split; [|split; [|split; [|split]]].
  - apply (proj1 (import_validation import_host read_Macro "oops" sample_app)).
    left. reflexivity.
  - apply (proj1 (import_validation import_host read_Macro "{}" sample_app)).
    right. left. exists (JObj []). split; reflexivity.
  - apply (proj1 (import_validation import_host read_Macro "[1, 2]" sample_app)).
    right. right. exists [JNum (Int 1); JNum (Int 2)]. split; reflexivity.
  - apply (proj1 (proj2 (import_validation import_host read_Macro "[]" sample_app)) []);
      reflexivity.
  - apply (proj2 (proj2 (import_validation import_host read_Macro "" sample_app)) 0%nat
             [("id", JStr "m1"); ("name", JStr "Dash"); ("triggerKey", JStr "f2");
              ("actions", JArr [])]); reflexivity.
Defined.

(** ** The generation gateway *)

Lemma assign_same_lists m :
  assign m {| PartialMacro.id := None; PartialMacro.name := None;
              PartialMacro.triggerKey := None; PartialMacro.loopMode := None;
              PartialMacro.actions := Some (Macro.actions m ++ [])%list;
              PartialMacro.releaseActions := Some (Macro.releaseActions m ++ [])%list |}
  = m.
Proof. destruct m. unfold assign. cbn. by rewrite !app_nil_r. Qed.

(** With distinct ids, the macro that [find] returns is the only one that
    [updateMacro] rewrites. *)
Lemma find_unique selected l : forall macro m,
  NoDup (List.map Macro.id l) ->
  List.find (fun m => String.eqb (Macro.id m) selected) l = Some macro ->
  m ∈ l -> String.eqb (Macro.id m) selected = true -> m = macro.
Proof.
  induction l as [|h l IH]; intros macro m Hnd Hfind Hin Hid; [by apply elem_of_nil in Hin|].
  cbn in Hnd. apply NoDup_cons in Hnd as [Hh Hnd]. cbn in Hfind.
  apply String.eqb_eq in Hid.
  destruct (String.eqb_spec (Macro.id h) selected) as [Heq|Hne].
  - injection Hfind as <-. apply elem_of_cons in Hin as [->|Hin]; [done|].
    exfalso. apply Hh. rewrite <- Heq in Hid. rewrite <- Hid.
    by apply (list_elem_of_fmap_2 Macro.id).
  - apply elem_of_cons in Hin as [->|Hin]; [congruence|].
    apply (IH macro m); try done. by apply String.eqb_eq.
Qed.

Lemma setMacros_frame v s :
  macros (setMacros v s) = v /\ aiError (setMacros v s) = aiError s /\
  showAiModal (setMacros v s) = showAiModal s /\ aiPrompt (setMacros v s) = aiPrompt s /\
  selectedMacroId (setMacros v s) = selectedMacroId s.
Proof. unfold setMacros. by destruct (0 <? length v)%nat. Qed.

Lemma map_unchanged {A : Type} (f : A -> A) (l : list A) :
  (forall x, x ∈ l -> f x = x) -> List.map f l = l.
Proof.
  induction l as [|h l IH]; intros H; [done|]. cbn.
  rewrite H by (apply elem_of_cons; by left). rewrite IH; [done|].
  intros x Hx. apply H. apply elem_of_cons. by right.
Qed.

(** C6, as the code has it.  With a credential and a selected macro: when
    the service call fails, the error is shown and the collection, the
    stored document, the dialog and the prompt stay as they were; when the
    response text is not JSON, no error is shown, the collection stays as it
    was (ids being distinct), and the dialog closes if the selected macro
    exists. *)
Theorem generation_failure host calls s key selected :
  API_KEY host = Some key -> key <> "" ->
  selectedMacroId s = Some selected -> selected <> "" ->
  (forall e,
     generateContent host (aiPrompt s) = Throw e ->
     aiError (handleAiGenerate host calls s) = Some "生成失败，模型可能过载。请稍后重试。"
     /\ macros (handleAiGenerate host calls s) = macros s
     /\ localStorage (handleAiGenerate host calls s) = localStorage s
     /\ showAiModal (handleAiGenerate host calls s) = showAiModal s
     /\ aiPrompt (handleAiGenerate host calls s) = aiPrompt s)
  /\
  (forall text,
     generateContent host (aiPrompt s) = Ok (Some text) ->
     JSON_parse host text = None ->
     aiError (handleAiGenerate host calls s) = None
     /\ (NoDup (List.map Macro.id (macros s)) ->
         macros (handleAiGenerate host calls s) = macros s)
     /\ (forall macro,
           List.find (fun m => String.eqb (Macro.id m) selected) (macros s) = Some macro ->
           showAiModal (handleAiGenerate host calls s) = false
           /\ aiPrompt (handleAiGenerate host calls s) = "")).
Proof.
  intros Hkey Hkne Hsel Hsne.
  destruct key as [|kc key]; [done|]. destruct selected as [|sc selected]; [done|].
  split.
  - intros e He. unfold handleAiGenerate, generateMacroFromPrompt.
    rewrite Hkey, Hsel. cbn [aiPrompt setAiError setAiLoading].
    unfold mbind, M_bind, lift. rewrite He. done.
  - intros text Htext Hparse.
    assert (generateMacroFromPrompt host (aiPrompt s) calls = Ok (([], []), calls)) as Hgen.
    { unfold generateMacroFromPrompt. rewrite Hkey.
      unfold mbind, M_bind, lift. rewrite Htext.
      destruct text; [done|]. by rewrite Hparse. }
    unfold handleAiGenerate. rewrite Hkey, Hsel.
    cbn [aiPrompt setAiError setAiLoading macros]. rewrite Hgen.
    destruct (List.find _ (macros s)) as [macro|] eqn:Hfind.
    + cbn [length Nat.eqb andb]. unfold updateMacro.
      cbn [aiError macros showAiModal aiPrompt setAiLoading setEditView setAiPrompt
             setShowAiModal setAiError].
      split; [|split].
      * apply setMacros_frame.
      * intros Hnd.
        assert (List.map
                  (fun m => if String.eqb (Macro.id m) (String sc selected)
                            then assign m
                              {| PartialMacro.id := None; PartialMacro.name := None;
                                 PartialMacro.triggerKey := None;
                                 PartialMacro.loopMode := None;
                                 PartialMacro.actions :=
                                   Some (Macro.actions macro ++ [])%list;
                                 PartialMacro.releaseActions :=
                                   Some (Macro.releaseActions macro ++ [])%list |}
                            else m) (macros s) = macros s) as Hmap.
        { apply map_unchanged. intros m Hin.
          destruct (String.eqb (Macro.id m) (String sc selected)) eqn:Hid; [|done].
          rewrite (find_unique _ _ macro m Hnd Hfind Hin Hid).
          apply assign_same_lists. }
        rewrite Hmap. apply setMacros_frame.
      * done.
    + split; [done|]. split; [done|]. intros ? [=].
Qed.

Lemma generation_failure_witness :
  (aiError (handleAiGenerate sample_host 0 sample_app)
     = Some "生成失败，模型可能过载。请稍后重试。"
   /\ macros (handleAiGenerate sample_host 0 sample_app) = macros sample_app
   /\ localStorage (handleAiGenerate sample_host 0 sample_app) = localStorage sample_app
   /\ showAiModal (handleAiGenerate sample_host 0 sample_app) = showAiModal sample_app
   /\ aiPrompt (handleAiGenerate sample_host 0 sample_app) = aiPrompt sample_app)
  /\
  (aiError (handleAiGenerate unparsable_host 0 sample_app) = None
   /\ (NoDup (List.map Macro.id (macros sample_app)) ->
       macros (handleAiGenerate unparsable_host 0 sample_app) = macros sample_app)
   /\ (forall macro,
         List.find (fun m => String.eqb (Macro.id m) "default-1") (macros sample_app)
           = Some macro ->
         showAiModal (handleAiGenerate unparsable_host 0 sample_app) = false
         /\ aiPrompt (handleAiGenerate unparsable_host 0 sample_app) = "")).
Proof.
  split.
  - apply (proj1 (generation_failure sample_host 0 sample_app "key" "default-1"
                    eq_refl ltac:(discriminate) eq_refl ltac:(discriminate))
             TransportError).
    reflexivity.
  - apply (proj2 (generation_failure unparsable_host 0 sample_app "key" "default-1"
                    eq_refl ltac:(discriminate) eq_refl ltac:(discriminate))
             "Sorry, I cannot help with that."); reflexivity.
Defined.

(** C6 as stated fails: when the response text is not JSON the user is
    shown no error; the dialog closes and the prompt is cleared as after a
    successful generation. *)
Lemma parse_failure_not_surfaced :
  generateContent unparsable_host (aiPrompt sample_app)
    = Ok (Some "Sorry, I cannot help with that.")
  /\ JSON_parse unparsable_host "Sorry, I cannot help with that." = None
  /\ aiError (handleAiGenerate unparsable_host 0 sample_app) = None
  /\ showAiModal (handleAiGenerate unparsable_host 0 sample_app) = false
  /\ aiPrompt (handleAiGenerate unparsable_host 0 sample_app) = ""
  /\ alerts (handleAiGenerate unparsable_host 0 sample_app) = [].
Proof. repeat split. Qed.

(** * Further properties *)

(** ** The playback scheduler: invariants of a run *)

(** What a step's visual effects do to the timers: nothing, or they arm
    one timer, which is not a next-step timer, under the next handle. *)
Lemma runStep_effects_arms action s :
  currentIndex (runStep_effects action s) = currentIndex s /\
  isPlaying (runStep_effects action s) = isPlaying s /\
  isPlayingRef (runStep_effects action s) = isPlayingRef s /\
  ((timers (runStep_effects action s) = timers s
    /\ timeoutsRef (runStep_effects action s) = timeoutsRef s
    /\ nextTimer (runStep_effects action s) = nextTimer s
    /\ scrollState (runStep_effects action s) = scrollState s)
   \/
   (exists ms cb,
      (forall index, cb <> NextStep index)
      /\ timers (runStep_effects action s)
         = <[nextTimer s := {| delay := ms; callback := cb |}]> (timers s)
      /\ timeoutsRef (runStep_effects action s) = (timeoutsRef s ++ [nextTimer s])%list
      /\ nextTimer (runStep_effects action s) = S (nextTimer s)
      /\ (scrollState (runStep_effects action s) = scrollState s \/ cb = ClearScroll))).
Proof.
  unfold runStep_effects, setTimeout, push_timeout.
  repeat case_match; cbn; repeat split; try done;
    first [ by left
          | right; eexists _, _; repeat split; try reflexivity; try discriminate;
            first [by left | by right] ].
Qed.

(** The active sets after a step: an action of another kind leaves a set
    alone, and a Key or Click action adds or removes only its own label. *)
Lemma runStep_effects_sets action s :
  (activeKeys (runStep_effects action s) ⊆ activeKeys s ∪ {[key_label action]}) /\
  (Js.is_string (MacroAction.type action) "KEY" = false ->
   activeKeys (runStep_effects action s) = activeKeys s) /\
  (activeMouseBtns (runStep_effects action s) ⊆ activeMouseBtns s ∪ {[button_name action]}) /\
  (Js.is_string (MacroAction.type action) "CLICK" = false ->
   activeMouseBtns (runStep_effects action s) = activeMouseBtns s).
Proof.
  unfold runStep_effects, setTimeout, push_timeout, key_label, button_name,
    ActionType.KEY, ActionType.CLICK.
  destruct (Js.is_string (MacroAction.type action) "KEY") eqn:Hkey;
    [|destruct (Js.is_string (MacroAction.type action) "CLICK") eqn:Hclick];
    repeat case_match; cbn; repeat split; try done; try congruence;
    set_unfold; intuition.
Qed.

(** A running step at the index of an action: the cursor moves there, the
    visual effects arm at most one timer, which is no next-step timer, and
    the timer of the next step is armed last. *)
Lemma runStep_running actions index action s :
  isPlayingRef s = true ->
  actions !! index = Some action ->
  currentIndex (runStep actions index s) = Z.of_nat index /\
  isPlaying (runStep actions index s) = isPlaying s /\
  isPlayingRef (runStep actions index s) = true /\
  activeKeys (runStep actions index s) ⊆ activeKeys s ∪ {[key_label action]} /\
  (Js.is_string (MacroAction.type action) "KEY" = false ->
   activeKeys (runStep actions index s) = activeKeys s) /\
  activeMouseBtns (runStep actions index s) ⊆ activeMouseBtns s ∪ {[button_name action]} /\
  (Js.is_string (MacroAction.type action) "CLICK" = false ->
   activeMouseBtns (runStep actions index s) = activeMouseBtns s) /\
  exists T R n,
    ((T = timers s /\ R = timeoutsRef s /\ n = nextTimer s
      /\ scrollState (runStep actions index s) = None)
     \/
     (exists ms cb,
        (forall j, cb <> NextStep j)
        /\ T = <[nextTimer s := {| delay := ms; callback := cb |}]> (timers s)
        /\ R = (timeoutsRef s ++ [nextTimer s])%list
        /\ n = S (nextTimer s)
        /\ (scrollState (runStep actions index s) = None \/ cb = ClearScroll)))
    /\ timers (runStep actions index s)
       = <[n := {| delay := stepDuration action; callback := NextStep (index + 1) |}]> T
    /\ timeoutsRef (runStep actions index s) = (R ++ [n])%list
    /\ nextTimer (runStep actions index s) = S n.
Proof.
  intros Hplay Hact. unfold runStep. rewrite Hplay, Hact. cbn [negb].
  set (s2 := setScrollState None (setCurrentIndex (Z.of_nat index) s)).
  destruct (runStep_effects_arms action s2) as (Hidx & Hp & Href & Harm).
  destruct (runStep_effects_sets action s2) as (Hk1 & Hk2 & Hb1 & Hb2).
  cbn. cbn in Hidx, Hp, Href, Hk1, Hk2, Hb1, Hb2.
  repeat (split; [first [done | congruence]|]).
  destruct Harm as [(HT & HR & Hn & Hsc)|(ms & cb & Hcb & HT & HR & Hn & Hsc)].
  - exists (timers s), (timeoutsRef s), (nextTimer s). cbn in HT, HR, Hn, Hsc.
    split; [left; by rewrite Hsc|]. by rewrite HT, HR, Hn.
  - eexists _, _, _. cbn in HT, HR, Hn, Hsc. split.
    + right. exists ms, cb. split; [done|]. split; [reflexivity|].
      split; [reflexivity|]. split; [reflexivity|]. destruct Hsc; [left|right]; done.
    + by rewrite HT, HR, Hn.
Qed.

(** A step past the end, or while not playing. *)
Lemma runStep_finished actions index s :
  isPlayingRef s = true -> actions !! index = None ->
  runStep actions index s = set_isPlayingRef false (setIsPlaying false s).
Proof. intros Hplay Hnone. unfold runStep. by rewrite Hplay, Hnone. Qed.

Lemma runStep_not_playing actions index s :
  isPlayingRef s = false -> runStep actions index s = s.
Proof. intros Hplay. unfold runStep. by rewrite Hplay. Qed.

Lemma stop_fields s :
  currentIndex (stop s) = currentIndex s /\ isPlaying (stop s) = false /\
  activeKeys (stop s) = activeKeys s /\ activeMouseBtns (stop s) = activeMouseBtns s /\
  scrollState (stop s) = None /\ isPlayingRef (stop s) = false /\
  timeoutsRef (stop s) = [] /\ nextTimer (stop s) = nextTimer s.
Proof.
  unfold stop. cbn.
  destruct (clear_all_frame (timeoutsRef s)
              (setIsPlaying false (set_isPlayingRef false s)))
    as (Hidx & Hplaying & Hkeys & Hbtns & _ & Href & _ & Hnext). cbn in *.
  repeat split; assumption.
Qed.

Lemma no_timers_no_next_step s : timers s = ∅ -> no_next_step s.
Proof. intros E t timer index. by rewrite E, lookup_empty. Qed.

Lemma no_timers_fresh s : timers s = ∅ -> fresh s.
Proof. intros E t. rewrite E, lookup_empty. by intros []. Qed.

Lemma stop_inv actions s :
  visual_inv actions s -> visual_inv actions (stop s) /\ run_inv actions (stop s).
Proof.
  intros (Htr & Hfr & Hflags & Hcur & Hkeys & Hbtns & Hscroll).
  pose proof (stop_no_timers s Htr) as Hnone.
  destruct (stop_fields s) as (Hi & Hp & Hk & Hb & Hsc & Href & _ & _).
  split.
  - unfold visual_inv. rewrite Hi, Hp, Hk, Hb, Hsc, Href.
    split; [by apply tracked_no_timers|]. split; [by apply no_timers_fresh|].
    repeat split; try done.
  - unfold run_inv. rewrite Href. by apply no_timers_no_next_step.
Qed.

Lemma reset_fields s :
  currentIndex (reset s) = -1 /\ isPlaying (reset s) = false /\
  activeKeys (reset s) = ∅ /\ activeMouseBtns (reset s) = ∅ /\
  scrollState (reset s) = None /\ isPlayingRef (reset s) = false /\
  timeoutsRef (reset s) = [] /\ nextTimer (reset s) = nextTimer s /\
  timers (reset s) = timers (stop s).
Proof.
  destruct (stop_fields s) as (_ & Hp & _ & _ & _ & Href & Hto & Hnext).
  unfold reset. cbn. repeat split; assumption.
Qed.

Lemma reset_inv actions s :
  visual_inv actions s -> visual_inv actions (reset s) /\ run_inv actions (reset s).
Proof.
  intros Hinv. destruct Hinv as (Htr & _).
  destruct (reset_fields s) as (Hi & Hp & Hk & Hb & Hsc & Href & _ & _ & Ht).
  assert (timers (reset s) = ∅) as Hnone by (rewrite Ht; by apply stop_no_timers).
  split.
  - unfold visual_inv. rewrite Hi, Hp, Hk, Hb, Hsc, Href.
    split; [by apply tracked_no_timers|]. split; [by apply no_timers_fresh|].
    repeat split; try done; try (by left); intros ? Hin; by apply elem_of_empty in Hin.
  - unfold run_inv. rewrite Href. by apply no_timers_no_next_step.
Qed.

(** A step from a state without a next-step timer keeps the invariants. *)
Lemma runStep_inv actions index s :
  visual_inv actions s -> no_next_step s -> (index <= length actions)%nat ->
  visual_inv actions (runStep actions index s) /\ run_inv actions (runStep actions index s).
Proof.
  intros Hinv Hno Hle.
  destruct (isPlayingRef s) eqn:Hplay;
    [|rewrite runStep_not_playing by done; split; [done|]; unfold run_inv; by rewrite Hplay].
  destruct Hinv as (Htr & Hfr & Hflags & Hcur & Hkeys & Hbtns & Hscroll).
  destruct (actions !! index) as [action|] eqn:Hact.
  - pose proof (runStep_tracked actions index s Htr) as Htr'.
    destruct (runStep_running actions index action s Hplay Hact)
      as (Hi & Hp & Href & Hk1 & Hk2 & Hb1 & Hb2 & T & R & n & Hcase & HT & HR & Hn).
    assert (index < length actions)%nat as Hlt by (by eapply lookup_lt_Some).
    assert (action ∈ actions) as Hin by (by eapply list_elem_of_lookup_2).
    assert (forall t, is_Some (T !! t) -> (t < n)%nat) as HfreshT.
    { intros t Ht. destruct Hcase as [(-> & _ & -> & _)|(ms & cb & _ & -> & _ & -> & _)].
      - by apply Hfr.
      - destruct (decide (t = nextTimer s)) as [->|Hne]; [lia|].
        rewrite lookup_insert_ne in Ht by done. apply Hfr in Ht. lia. }
    assert (forall t timer j, T !! t = Some timer -> callback timer <> NextStep j) as HnoT.
    { intros t timer j Ht. destruct Hcase as [(-> & _)|(ms & cb & Hcb & -> & _)].
      - by eapply Hno.
      - destruct (decide (t = nextTimer s)) as [->|Hne].
        + rewrite lookup_insert_eq in Ht. injection Ht as <-. apply Hcb.
        + rewrite lookup_insert_ne in Ht by done. by eapply Hno. }
    split.
    + unfold visual_inv. rewrite Hi, Hp, Href.
      split; [done|]. split; [|split; [congruence|split; [right; lia|split; [|split]]]].
      * intros t Ht. rewrite Hn. rewrite HT in Ht.
        destruct (decide (t = n)) as [->|Hne]; [lia|].
        rewrite lookup_insert_ne in Ht by done. apply HfreshT in Ht. lia.
      * intros k Hk.
        destruct (Js.is_string (MacroAction.type action) "KEY") eqn:Hkey.
        -- apply Hk1 in Hk. apply elem_of_union in Hk as [Hk|Hk]; [by apply Hkeys|].
           apply elem_of_singleton in Hk. by exists action.
        -- rewrite Hk2 in Hk by done. by apply Hkeys.
      * intros b Hb.
        destruct (Js.is_string (MacroAction.type action) "CLICK") eqn:Hclick.
        -- apply Hb1 in Hb. apply elem_of_union in Hb as [Hb|Hb]; [by apply Hbtns|].
           apply elem_of_singleton in Hb. by exists action.
        -- rewrite Hb2 in Hb by done. by apply Hbtns.
      * intros Hsc.
        destruct Hcase as [(_ & _ & _ & Hnone)|(ms & cb & _ & -> & _ & -> & [Hnone| ->])];
          try done.
        exists (nextTimer s), ms. rewrite HT, lookup_insert_ne by lia.
        apply lookup_insert_eq.
    + unfold run_inv. rewrite Href. exists n, (index + 1)%nat. split; [split|].
      * eexists. rewrite HT. apply lookup_insert_eq.
      * intros t' timer j Ht' Hcb. rewrite HT in Ht'.
        destruct (decide (t' = n)) as [|Hne]; [done|].
        rewrite lookup_insert_ne in Ht' by done. by destruct (HnoT t' timer j Ht').
      * rewrite Hi. lia.
  - rewrite runStep_finished by done. split.
    + unfold visual_inv. cbn. repeat split; try done.
    + unfold run_inv. cbn. exact Hno.
Qed.

Lemma play_inv actions s :
  visual_inv actions s -> run_inv actions s ->
  visual_inv actions (play actions s) /\ run_inv actions (play actions s).
Proof.
  intros Hinv Hrun. unfold play. destruct (isPlayingRef s) eqn:Hplay; [done|].
  destruct (reset_inv actions s Hinv) as [(Htr & Hfr & Hflags & Hcur & Hkeys & Hbtns & Hsc) Hr].
  unfold run_inv in Hr.
  destruct (reset_fields s) as (_ & _ & _ & _ & _ & Href & _). rewrite Href in Hr.
  apply runStep_inv; [|exact Hr|lia].
  unfold visual_inv. cbn. repeat split; try done.
Qed.

Lemma fire_inv actions t s :
  visual_inv actions s -> run_inv actions s ->
  visual_inv actions (fire actions t s) /\ run_inv actions (fire actions t s).
Proof.
  intros Hinv Hrun. unfold fire.
  destruct (timers s !! t) as [[ms cb]|] eqn:Ht; [|done].
  destruct Hinv as (Htr & Hfr & Hflags & Hcur & Hkeys & Hbtns & Hscroll).
  set (s1 := clearTimeout s t).
  assert (forall t' timer, timers s1 !! t' = Some timer ->
                           t' <> t /\ timers s !! t' = Some timer) as Hold.
  { intros t' timer. cbn. destruct (decide (t = t')) as [->|Hne].
    - by rewrite lookup_delete_eq.
    - by rewrite lookup_delete_ne. }
  assert (tracked s1) as Htr1 by (by apply tracked_clearTimeout).
  assert (fresh s1) as Hfr1.
  { intros t' [timer Ht']. apply Hold in Ht' as [_ Ht']. apply Hfr. by rewrite Ht'. }
  assert (cb <> ClearScroll -> scrollState s <> None ->
          exists t0 ms0, timers s1 !! t0 = Some {| delay := ms0; callback := ClearScroll |})
    as Hsc1.
  { intros Hcb Hsc. destruct (Hscroll Hsc) as (t0 & ms0 & Ht0).
    exists t0, ms0. cbn. rewrite lookup_delete_ne; [done|].
    intros ->. rewrite Ht in Ht0. by injection Ht0 as _ Hcb0. }
  assert ((forall j, cb <> NextStep j) -> run_inv actions s1) as Hrun1.
  { intros Hcb. unfold run_inv in *. change (isPlayingRef s1) with (isPlayingRef s).
    destruct (isPlayingRef s).
    - destruct Hrun as (t0 & index & [[ms0 Ht0] Huniq] & Hbound & Hidx).
      exists t0, index. split; [split|done].
      + exists ms0. cbn. rewrite lookup_delete_ne; [done|].
        intros ->. rewrite Ht in Ht0. injection Ht0 as _ Hcb0. by apply (Hcb index).
      + intros t' timer j Ht' Hj. apply Hold in Ht' as [_ Ht']. by eapply Huniq.
    - intros t' timer j Ht'. apply Hold in Ht' as [_ Ht']. by eapply Hrun. }
  cbn [callback]. destruct cb as [keyName|btn| |index].
  - split; [|by apply Hrun1].
    unfold visual_inv. cbn. repeat split; try done.
    + intros k Hk. apply Hkeys. set_unfold. tauto.
    + intros Hsc. by apply Hsc1.
  - split; [|by apply Hrun1].
    unfold visual_inv. cbn. repeat split; try done.
    + intros b Hb. apply Hbtns. set_unfold. tauto.
    + intros Hsc. by apply Hsc1.
  - split; [|by apply Hrun1].
    unfold visual_inv. cbn. repeat split; try done.
  - unfold run_inv in Hrun. destruct (isPlayingRef s) eqn:Hplay.
    + destruct Hrun as (t0 & index0 & [[ms0 Ht0] Huniq] & Hbound & Hidx).
      assert (t = t0) as -> by (by eapply Huniq).
      rewrite Ht in Ht0. injection Ht0 as _ ->.
      apply runStep_inv; [| |lia].
      * unfold visual_inv.
        split; [exact Htr1|split; [exact Hfr1|split; [cbn; congruence|split; [exact Hcur|
          split; [exact Hkeys|split; [exact Hbtns|]]]]]].
        intros Hsc. by apply Hsc1.
      * intros t' timer j Ht' Hj. apply Hold in Ht' as [Hne Ht'].
        apply Hne. by eapply Huniq.
    + by destruct (Hrun t _ index Ht).
Qed.

Lemma mounted_inv actions : visual_inv actions mounted /\ run_inv actions mounted.
Proof.
  split.
  - unfold visual_inv. cbn. split; [by apply tracked_no_timers|].
    split; [by apply no_timers_fresh|]. repeat split; try done; try (by left);
      intros ? Hin; by apply elem_of_empty in Hin.
  - by apply no_timers_no_next_step.
Qed.

Lemma reachable_inv actions s :
  reachable actions s -> visual_inv actions s /\ run_inv actions s.
Proof.
  induction 1 as [|e s _ [IHv IHr]]; [apply mounted_inv|].
  destruct e; cbn [handle].
  - by apply play_inv.
  - by apply stop_inv.
  - by apply reset_inv.
  - by apply fire_inv.
Qed.

(** X1: in every state of a run, [reset] brings the visualizer back to its
    state at mount: no timer is pending, none is remembered, the cursor is
    -1, no key and no button is active, the scroll indicator is off and
    nothing is playing. *)
Theorem reset_clears_all actions s :
  reachable actions s ->
  timers (reset s) = ∅ /\ timeoutsRef (reset s) = [] /\ currentIndex (reset s) = -1 /\
  activeKeys (reset s) = ∅ /\ activeMouseBtns (reset s) = ∅ /\
  scrollState (reset s) = None /\ isPlaying (reset s) = false /\
  isPlayingRef (reset s) = false.
Proof.
  intros Hreach.
  destruct (reset_fields s) as (Hi & Hp & Hk & Hb & Hsc & Href & Hto & _ & Ht).
  split; [rewrite Ht; by apply stop_no_timers, reachable_tracked with actions|].
  repeat split; assumption.
Qed.

Lemma reset_clears_all_witness :
  timers (reset (play [key_a_click] mounted)) = ∅ /\
  timeoutsRef (reset (play [key_a_click] mounted)) = [] /\
  currentIndex (reset (play [key_a_click] mounted)) = -1 /\
  activeKeys (reset (play [key_a_click] mounted)) = ∅ /\
  activeMouseBtns (reset (play [key_a_click] mounted)) = ∅ /\
  scrollState (reset (play [key_a_click] mounted)) = None /\
  isPlaying (reset (play [key_a_click] mounted)) = false /\
  isPlayingRef (reset (play [key_a_click] mounted)) = false.
Proof.
  apply (reset_clears_all [key_a_click]).
  apply (reachable_handle [key_a_click] Play mounted), reachable_mounted.
Defined.

Lemma Visualizer_eq s s' :
  currentIndex s = currentIndex s' -> isPlaying s = isPlaying s' ->
  activeKeys s = activeKeys s' -> activeMouseBtns s = activeMouseBtns s' ->
  scrollState s = scrollState s' -> isPlayingRef s = isPlayingRef s' ->
  timeoutsRef s = timeoutsRef s' -> timers s = timers s' -> nextTimer s = nextTimer s' ->
  s = s'.
Proof. destruct s, s'. cbn. by intros -> -> -> -> -> -> -> -> ->. Qed.

Lemma stop_stop_timers s : timers (stop (stop s)) = timers (stop s).
Proof.
  apply map_eq. intros t. rewrite (stop_timers (stop s)).
  destruct (stop_fields s) as (_ & _ & _ & _ & _ & _ & -> & _).
  case_decide as Hin; [by apply elem_of_nil in Hin|done].
Qed.

(** X2: [stop] and [reset] are idempotent, and [reset] absorbs [stop] on
    either side. *)
Theorem stop_reset_idempotent s :
  stop (stop s) = stop s /\ reset (reset s) = reset s /\
  reset (stop s) = reset s /\ stop (reset s) = reset s.
Proof.
  pose proof (stop_stop_timers s) as Htimers.
  destruct (stop_fields s) as (Hi & Hp & Hk & Hb & Hsc & Href & Hto & Hn).
  destruct (stop_fields (stop s)) as (Hi2 & Hp2 & Hk2 & Hb2 & Hsc2 & Href2 & Hto2 & Hn2).
  assert (stop (stop s) = stop s) as Hss.
  { apply Visualizer_eq; congruence. }
  assert (reset (stop s) = reset s) as Hrs.
  { unfold reset. by rewrite Hss. }
  assert (stop (reset s) = reset s) as Hsr.
  { destruct (stop_fields (reset s)) as (Hi3 & Hp3 & Hk3 & Hb3 & Hsc3 & Href3 & Hto3 & Hn3).
    destruct (reset_fields s) as (Hi4 & Hp4 & Hk4 & Hb4 & Hsc4 & Href4 & Hto4 & Hn4 & Ht4).
    apply Visualizer_eq; try congruence.
    apply map_eq. intros t. rewrite (stop_timers (reset s)), Hto4.
    case_decide as Hin; [by apply elem_of_nil in Hin|done]. }
  split; [exact Hss|]. split; [|split; [exact Hrs|exact Hsr]].
  unfold reset at 1. rewrite Hsr.
  destruct (reset_fields s) as (Hi4 & Hp4 & Hk4 & Hb4 & Hsc4 & Href4 & Hto4 & Hn4 & Ht4).
  apply Visualizer_eq; cbn; congruence.
Qed.

(** X3: at most one run is active.  In every state of a run the playing
    flag and its ref agree; while playing exactly one next-step timer is
    pending, and while not playing none is. *)
Theorem one_run_at_a_time actions s :
  reachable actions s ->
  isPlaying s = isPlayingRef s /\
  (isPlayingRef s = true -> exists t index, only_next_step s t index) /\
  (isPlayingRef s = false -> no_next_step s).
Proof.
  intros Hreach. destruct (reachable_inv actions s Hreach) as [Hv Hr].
  destruct Hv as (_ & _ & Hflags & _). unfold run_inv in Hr.
  split; [done|]. split; intros Hplay; rewrite Hplay in Hr; [|done].
  destruct Hr as (t & index & Honly & _). by exists t, index.
Qed.

Lemma one_run_at_a_time_witness :
  isPlaying (play [key_a_click] (play [key_a_click] mounted))
    = isPlayingRef (play [key_a_click] (play [key_a_click] mounted)) /\
  (isPlayingRef (play [key_a_click] (play [key_a_click] mounted)) = true ->
   exists t index, only_next_step (play [key_a_click] (play [key_a_click] mounted)) t index) /\
  (isPlayingRef (play [key_a_click] (play [key_a_click] mounted)) = false ->
   no_next_step (play [key_a_click] (play [key_a_click] mounted))).
Proof.
  apply (one_run_at_a_time [key_a_click]).
  apply (reachable_handle [key_a_click] Play (play [key_a_click] mounted)).
  apply (reachable_handle [key_a_click] Play mounted), reachable_mounted.
Defined.

(** X4: the cursor stays in bounds.  In every state of a run the cursor is
    -1 or the index of an action, and a pending next-step timer is for the
    step right after the cursor, at most one past the end. *)
Theorem cursor_in_bounds actions s :
  reachable actions s ->
  (currentIndex s = -1 \/ 0 <= currentIndex s < Z.of_nat (length actions)) /\
  (forall t ms index,
     timers s !! t = Some {| delay := ms; callback := NextStep index |} ->
     (1 <= index <= length actions)%nat /\ currentIndex s = Z.of_nat index - 1).
Proof.
  intros Hreach. destruct (reachable_inv actions s Hreach) as [Hv Hr].
  destruct Hv as (_ & _ & _ & Hcur & _). split; [done|].
  intros t ms index Ht. unfold run_inv in Hr. destruct (isPlayingRef s).
  - destruct Hr as (t0 & index0 & [[ms0 Ht0] Huniq] & Hbound & Hidx).
    assert (t = t0) as -> by (by eapply Huniq).
    rewrite Ht in Ht0. by injection Ht0 as _ ->.
  - by destruct (Hr t _ index Ht).
Qed.

Lemma cursor_in_bounds_witness :
  (currentIndex (play [key_a_click] mounted) = -1
   \/ 0 <= currentIndex (play [key_a_click] mounted) < Z.of_nat (length [key_a_click])) /\
  (forall t ms index,
     timers (play [key_a_click] mounted) !! t
       = Some {| delay := ms; callback := NextStep index |} ->
     (1 <= index <= length [key_a_click])%nat
     /\ currentIndex (play [key_a_click] mounted) = Z.of_nat index - 1).
Proof.
  apply (cursor_in_bounds [key_a_click]).
  apply (reachable_handle [key_a_click] Play mounted), reachable_mounted.
Defined.

(** X5: what is shown as pressed comes from the list.  In every state of a
    run an active key is the canonical label of the key of a Key action of
    the list, and an active button is the button of a Click action of the
    list. *)
Theorem active_sets_from_actions actions s :
  reachable actions s ->
  (forall k, k ∈ activeKeys s ->
     exists a, a ∈ actions /\ Js.is_string (MacroAction.type a) "KEY" = true
               /\ k = key_label a) /\
  (forall b, b ∈ activeMouseBtns s ->
     exists a, a ∈ actions /\ Js.is_string (MacroAction.type a) "CLICK" = true
               /\ b = button_name a).
Proof.
  intros Hreach. destruct (reachable_inv actions s Hreach) as [Hv _].
  destruct Hv as (_ & _ & _ & _ & Hkeys & Hbtns & _). by split.
Qed.

Lemma active_sets_from_actions_witness :
  (forall k, k ∈ activeKeys (play [key_a_click] mounted) ->
     exists a, a ∈ [key_a_click] /\ Js.is_string (MacroAction.type a) "KEY" = true
               /\ k = key_label a) /\
  (forall b, b ∈ activeMouseBtns (play [key_a_click] mounted) ->
     exists a, a ∈ [key_a_click] /\ Js.is_string (MacroAction.type a) "CLICK" = true
               /\ b = button_name a).
Proof.
  apply (active_sets_from_actions [key_a_click]).
  apply (reachable_handle [key_a_click] Play mounted), reachable_mounted.
Defined.

(** X6: the scroll indicator never sticks.  In every state of a run in
    which it is shown, a timer that clears it is pending. *)
Theorem scroll_indicator_transient actions s :
  reachable actions s ->
  scrollState s <> None ->
  exists t ms, timers s !! t = Some {| delay := ms; callback := ClearScroll |}.
Proof.
  intros Hreach. destruct (reachable_inv actions s Hreach) as [Hv _].
  by destruct Hv as (_ & _ & _ & _ & _ & _ & Hscroll).
Qed.

Lemma scroll_indicator_transient_witness :
  exists t ms,
    timers (play [scroll3] mounted) !! t = Some {| delay := ms; callback := ClearScroll |}.
Proof.
  apply (scroll_indicator_transient [scroll3]).
  - apply (reachable_handle [scroll3] Play mounted), reachable_mounted.
  - discriminate.
Defined.

(** ** The playback scheduler: a run reaches its end *)






(** ** Key labels *)

Lemma normalizeKey_label_or_upper k :
  In (normalizeKey k)
    ["SPACE"; "CTRL"; "ENTER"; "ESC"; "DEL"; "INS"; "UP"; "DOWN"; "LEFT"; "RIGHT";
     "PGUP"; "PGDN"]
  \/ normalizeKey k = toUpperCase k.
Proof.
  destruct k as [|c k]; [by right|].
  unfold normalizeKey. cbn [truthy negb].
  repeat match goal with
         | |- context [String.eqb ?a ?b] =>
             lazymatch b with
             | String _ _ => destruct (String.eqb a b); [left; cbn; tauto|]
             end
         end.
  by right.
Qed.

(** X8: a label is canonical.  Normalizing a label again gives the same
    label, and a label has no lower-case letter, as the keys of the drawn
    keyboard have none. *)
Theorem normalizeKey_idempotent k :
  normalizeKey (normalizeKey k) = normalizeKey k /\
  toUpperCase (normalizeKey k) = normalizeKey k.
Proof.
  destruct (normalizeKey_label_or_upper k) as [Hin|Hup].
  - cbn [In] in Hin.
    repeat (destruct Hin as [<-|Hin]; [by split|]). done.
  - rewrite Hup. split; [|apply toUpperCase_idemp].
    rewrite normalizeKey_upper. exact Hup.
Qed.

(** ** The normalizer: shape of the output and composition *)

Lemma lower_lower_char c : lower_char (lower_char c) = lower_char c.
Proof. destruct c as [[] [] [] [] [] [] [] []]; reflexivity. Qed.

Lemma toLowerCase_idemp s : toLowerCase (toLowerCase s) = toLowerCase s.
Proof. induction s as [|c s IH]; simpl; [done|]. by rewrite lower_lower_char, IH. Qed.

Lemma lower_or_lower v fallback s : lower_or v fallback = Ok s -> toLowerCase s = s.
Proof.
  unfold lower_or. destruct (Js.or_else v (JStr fallback)); try discriminate.
  cbn. intros [= <-]. apply toLowerCase_idemp.
Qed.

Lemma gt_positive duration m : Js.gt duration m = true -> exists d, duration = Int d /\ m < d.
Proof.
  destruct duration as [|d]; [discriminate|]. cbn. intros H.
  exists d. split; [done|]. by apply Z.ltb_lt.
Qed.

(** The actions pushed for an element do not depend on what was pushed
    before. *)
Ltac pushed_after :=
  let processed := fresh "processed" in
  intros processed; rewrite <- ?app_assoc; cbn [app];
  refine (f_equal2 (fun out calls => Ok (out, calls)) _ _);
  [reflexivity|cbn [length]; lia].

Lemma sanitize_body_normal host a n button key state :
  a <> JNull -> a <> JUndefined ->
  lower_or (field a "button") "left" = Ok button ->
  lower_or (field a "key") "" = Ok key ->
  lower_or (field a "actionState") "click" = Ok state ->
  exists emitted,
    (forall processed,
       sanitize_body host a processed n
       = Ok ((processed ++ emitted)%list, (n + length emitted)%nat))
    /\ (1 <= length emitted <= 3)%nat
    /\ List.map MacroAction.id emitted = List.map (nth_id host) (seq n (length emitted))
    /\ Forall normal_form emitted.
Proof.
  intros Hnull Hundef Hb Hk Hs.
  pose proof (lower_or_lower _ _ _ Hb) as Hlb. pose proof (lower_or_lower _ _ _ Hk) as Hlk.
  unfold sanitize_body; run. rewrite !get_field by done. rewrite Hb, Hk, Hs.
  assert (forall st, st = "click" \/ st = "down" \/ st = "up" ->
            forall type d x y ab sc id,
              (st <> "click" -> d = Int 0) ->
              normal_form
                {| MacroAction.id := id; MacroAction.type := type;
                   MacroAction.actionState := Some st; MacroAction.button := Some button;
                   MacroAction.duration := Some d; MacroAction.x := Some x;
                   MacroAction.y := Some y; MacroAction.absolute := Some ab;
                   MacroAction.key := Some key; MacroAction.scrollAmount := Some sc |})
    as Hfull.
  { intros st Hst type d x y ab sc id Hd. right. exists st, button, key. cbn.
    repeat split; try done; try by eexists. intros Hne. by rewrite Hd. }
  assert (state = "down" \/ state = "up" \/ (state <> "down" /\ state <> "up")) as Hcase.
  { destruct (String.eqb_spec state "down"); [by left|].
    destruct (String.eqb_spec state "up"); [by right; left|by right; right]. }
  destruct Hcase as [->|[->|[Hnd Hnu]]].
  - cbn [String.eqb Ascii.eqb Bool.eqb orb].
    destruct (Js.gt (int_or_zero (field a "duration")) 0) eqn:Hgt; cbn [andb].
    + destruct (gt_positive _ _ Hgt) as (d & -> & Hd).
      eexists. split; [pushed_after|]. split; [cbn; lia|]. split; [reflexivity|].
      apply Forall_cons_2; [apply Hfull; auto|apply Forall_cons_2; [|apply Forall_nil_2]].
      left. by eexists _, _.
    + eexists. split; [pushed_after|]. split; [cbn; lia|]. split; [reflexivity|].
      apply Forall_cons_2; [apply Hfull; auto|apply Forall_nil_2].
  - cbn [String.eqb Ascii.eqb Bool.eqb orb]. rewrite andb_false_r.
    eexists. split; [pushed_after|]. split; [cbn; lia|]. split; [reflexivity|].
    apply Forall_cons_2; [apply Hfull; auto|apply Forall_nil_2].
  - apply String.eqb_neq in Hnd, Hnu. rewrite Hnd, Hnu. cbn [orb].
    destruct ((Js.is_string _ "CLICK" || Js.is_string _ "KEY") && Js.gt _ 10) eqn:Hlazy.
    + apply andb_prop in Hlazy as [_ Hgt]. destruct (gt_positive _ _ Hgt) as (d & Hd & Hlt).
      rewrite Hd.
      eexists. split; [pushed_after|]. split; [cbn; lia|]. split; [reflexivity|].
      apply Forall_cons_2; [apply Hfull; auto|].
      apply Forall_cons_2; [left; eexists _, _; split; [reflexivity|lia]|].
      apply Forall_cons_2; [apply Hfull; auto|apply Forall_nil_2].
    + eexists. split; [pushed_after|]. split; [cbn; lia|]. split; [reflexivity|].
      apply Forall_cons_2; [apply Hfull; auto; congruence|apply Forall_nil_2].
Qed.

Lemma accepted_lower a :
  accepted a = true ->
  a <> JNull /\ a <> JUndefined /\
  exists button key state,
    lower_or (field a "button") "left" = Ok button
    /\ lower_or (field a "key") "" = Ok key
    /\ lower_or (field a "actionState") "click" = Ok state.
Proof.
  intros Hacc.
  assert (a <> JNull /\ a <> JUndefined) as [Hnull Hundef] by (by destruct a).
  assert (text_or_falsy (field a "button") = true /\ text_or_falsy (field a "key") = true
          /\ text_or_falsy (field a "actionState") = true) as (Hb & Hk & Hs).
  { destruct a; try done; cbn in Hacc;
      apply andb_prop in Hacc as [Hacc ?]; apply andb_prop in Hacc as [? ?]; done. }
  destruct (lower_or_text _ "left" Hb) as [button Hbutton].
  destruct (lower_or_text _ "" Hk) as [key Hkey].
  destruct (lower_or_text _ "click" Hs) as [state Hstate].
  split; [done|]. split; [done|]. by exists button, key, state.
Qed.

Lemma sanitize_loop_normal host items : forall n,
  forallb accepted items = true ->
  exists emitted,
    (forall processed,
       sanitize_loop host items processed n
       = Ok ((processed ++ emitted)%list, (n + length emitted)%nat))
    /\ (length items <= length emitted <= 3 * length items)%nat
    /\ List.map MacroAction.id emitted = List.map (nth_id host) (seq n (length emitted))
    /\ Forall normal_form emitted.
Proof.
  induction items as [|a items IH]; intros n Hall.
  - exists []. split; [|by repeat split].
    intros processed. cbn. by rewrite app_nil_r, Nat.add_0_r.
  - cbn in Hall. apply andb_prop in Hall as [Ha Hall].
    destruct (accepted_lower a Ha) as (Hnull & Hundef & button & key & state & Hb & Hk & Hs).
    destruct (sanitize_body_normal host a n button key state Hnull Hundef Hb Hk Hs)
      as (e1 & Hbody & Hlen1 & Hids1 & Hnf1).
    destruct (IH (n + length e1)%nat Hall) as (e2 & Hloop & Hlen2 & Hids2 & Hnf2).
    exists (e1 ++ e2)%list. split; [|split; [|split]].
    + intros processed. cbn [sanitize_loop]. unfold mbind, M_bind at 1.
      rewrite Hbody, Hloop. rewrite <- app_assoc, length_app, Nat.add_assoc. done.
    + rewrite length_app. cbn [length]. lia.
    + rewrite length_app, seq_app, !map_app, Hids1, Hids2. done.
    + by apply Forall_app.
Qed.

Lemma forallb_accepted_of_ok host items processed n out calls :
  sanitize_loop host items processed n = Ok (out, calls) ->
  forallb accepted items = true.
Proof.
  intros Hok. destruct (forallb accepted items) eqn:Hall; [done|].
  by rewrite sanitize_loop_rejected in Hok.
Qed.

(** What a returning [sanitize] returns, for any argument. *)
Lemma sanitize_ok host v n out calls :
  sanitize host v n = Ok (out, calls) ->
  calls = (n + length out)%nat
  /\ List.map MacroAction.id out = List.map (nth_id host) (seq n (length out))
  /\ Forall normal_form out
  /\ (forall items, v = JArr items ->
                    (length items <= length out <= 3 * length items)%nat).
Proof.
  intros Hok.
  assert (Js.isArray v = false -> out = [] /\ calls = n) as Hnot.
  { intros Hv. destruct v; try discriminate; cbn in Hok; by injection Hok as <- <-. }
  destruct v as [| | | | |items|];
    try (destruct Hnot as [-> ->]; [done|];
         cbn [length List.map seq]; rewrite Nat.add_0_r;
         split; [done|split; [done|split; [apply Forall_nil_2|intros ? [=]]]]).
  cbn [sanitize] in Hok.
  pose proof (forallb_accepted_of_ok _ _ _ _ _ _ Hok) as Hall.
  destruct (sanitize_loop_normal host items n Hall) as (e & Hloop & Hlen & Hids & Hnf).
  rewrite Hloop in Hok. cbn [app] in Hok. injection Hok as <- <-.
  split; [done|split; [done|split; [done|]]]. intros ? [= <-]. lia.
Qed.

(** X9: [sanitize] emits between one and three actions for each element.
    When it returns, the output has at least as many actions as the array
    has elements and at most three times as many, and [Math.random] was
    called once for each action. *)
Theorem sanitize_output_bounds host items n out calls :
  sanitize host (JArr items) n = Ok (out, calls) ->
  (length items <= length out <= 3 * length items)%nat /\ calls = (n + length out)%nat.
Proof.
  intros Hok. destruct (sanitize_ok _ _ _ _ _ Hok) as (Hcalls & _ & _ & Hbounds).
  split; [by apply Hbounds|done].
Qed.

Lemma sanitize_output_bounds_witness :
  (length two_candidates <= 4 <= 3 * length two_candidates)%nat /\ 4%nat = (0 + 4)%nat.
Proof.
  apply (sanitize_output_bounds sample_host two_candidates 0%nat
           (match sanitize sample_host (JArr two_candidates) 0%nat with
            | Ok (out, _) => out
            | Throw _ => []
            end) 4%nat).
  reflexivity.
Defined.

(** X10: every action that [sanitize] returns is in normal form: it is the
    synthetic Delay with a positive duration, or it has every property, a
    state among 'click', 'down' and 'up' whatever the candidate's state
    was, a lower-case button and key, and duration 0 unless its state is
    'click'. *)
Theorem sanitize_output_normal_form host v n out calls :
  sanitize host v n = Ok (out, calls) -> Forall normal_form out.
Proof. intros Hok. by destruct (sanitize_ok _ _ _ _ _ Hok) as (_ & _ & Hnf & _). Qed.

Lemma sanitize_output_normal_form_witness :
  Forall normal_form
    (match sanitize sample_host (JArr two_candidates) 0%nat with
     | Ok (out, _) => out
     | Throw _ => []
     end).
Proof.
  apply (sanitize_output_normal_form sample_host (JArr two_candidates) 0%nat _ 4%nat).
  reflexivity.
Defined.

Lemma sanitize_loop_app host l1 : forall l2 processed n,
  sanitize_loop host (l1 ++ l2) processed n
  = match sanitize_loop host l1 processed n with
    | Ok (processed', calls) => sanitize_loop host l2 processed' calls
    | Throw e => Throw e
    end.
Proof.
  induction l1 as [|a l1 IH]; intros l2 processed n; [done|].
  cbn [app sanitize_loop]. unfold mbind, M_bind.
  destruct (sanitize_body host a processed n) as [[processed' calls]|e]; [|done].
  apply IH.
Qed.

(** X11: [sanitize] works element by element, in order.  The output for
    two arrays put end to end is the output for the first followed by the
    output for the second, the second drawing its ids after the first; it
    throws when either does. *)
Theorem sanitize_app host l1 l2 n :
  sanitize host (JArr (l1 ++ l2)) n
  = match sanitize host (JArr l1) n with
    | Ok (out1, calls1) =>
        match sanitize host (JArr l2) calls1 with
        | Ok (out2, calls2) => Ok ((out1 ++ out2)%list, calls2)
        | Throw e => Throw e
        end
    | Throw e => Throw e
    end.
Proof.
  cbn [sanitize]. rewrite sanitize_loop_app.
  destruct (forallb accepted l1) eqn:H1.
  - destruct (sanitize_loop_normal host l1 n H1) as (e1 & Hl1 & _).
    rewrite Hl1. cbn [app].
    destruct (forallb accepted l2) eqn:H2.
    + destruct (sanitize_loop_normal host l2 (n + length e1)%nat H2) as (e2 & Hl2 & _).
      by rewrite !Hl2.
    + by rewrite !sanitize_loop_rejected.
  - by rewrite sanitize_loop_rejected.
Qed.

(** X12: a successful generation numbers its actions in one sequence.
    When [generateMacroFromPrompt] returns, the ids of the main actions
    followed by those of the release actions are the consecutive draws of
    the generator, one call of [Math.random] each, and every action is in
    normal form. *)
Theorem generated_ids_in_sequence host prompt n mainActions releaseActions calls :
  generateMacroFromPrompt host prompt n = Ok ((mainActions, releaseActions), calls) ->
  calls = (n + length (mainActions ++ releaseActions))%nat
  /\ List.map MacroAction.id (mainActions ++ releaseActions)
     = List.map (nth_id host) (seq n (length (mainActions ++ releaseActions)))
  /\ Forall normal_form (mainActions ++ releaseActions).
Proof.
  unfold generateMacroFromPrompt.
  destruct (API_KEY host) as [[|kc key]|]; try discriminate.
  unfold mbind, M_bind, mret, M_ret, lift.
  destruct (generateContent host prompt) as [[[|tc text]|]|e]; try discriminate;
    try (intros [= <- <- <-]; cbn; rewrite Nat.add_0_r; by repeat split).
  destruct (JSON_parse host (String tc text)) as [result|];
    [|intros [= <- <- <-]; cbn; rewrite Nat.add_0_r; by repeat split].
  destruct (Js.get result "mainSequence") as [mainSequence|]; [|discriminate].
  destruct (sanitize host mainSequence n) as [[main calls1]|] eqn:Hmain; [|discriminate].
  destruct (Js.get result "releaseSequence") as [releaseSequence|]; [|discriminate].
  destruct (sanitize host releaseSequence calls1) as [[release calls2]|] eqn:Hrelease;
    [|discriminate].
  intros [= <- <- <-].
  destruct (sanitize_ok _ _ _ _ _ Hmain) as (-> & Hids1 & Hnf1 & _).
  destruct (sanitize_ok _ _ _ _ _ Hrelease) as (-> & Hids2 & Hnf2 & _).
  rewrite length_app, seq_app, !map_app, Hids1, Hids2, Nat.add_assoc.
  split; [done|]. split; [done|]. by apply Forall_app.
Qed.

Lemma generated_ids_in_sequence_witness :
  4%nat = (0 + 4)%nat
  /\ ["4fzyo82mv"; "ly1k03x9c"; "07tqe5hd2"; "q8s4b6j1z"]
     = List.map (nth_id answering_host) (seq 0%nat 4)
  /\ Forall normal_form
       (match generateMacroFromPrompt answering_host "hold W" 0%nat with
        | Ok ((mainActions, releaseActions), _) => (mainActions ++ releaseActions)%list
        | Throw _ => []
        end).
Proof.
  apply (generated_ids_in_sequence answering_host "hold W" 0%nat
           (match generateMacroFromPrompt answering_host "hold W" 0%nat with
            | Ok ((mainActions, _), _) => mainActions
            | Throw _ => []
            end)
           (match generateMacroFromPrompt answering_host "hold W" 0%nat with
            | Ok ((_, releaseActions), _) => releaseActions
            | Throw _ => []
            end) 4%nat).
  reflexivity.
Defined.

(** ** The macro collection *)

Lemma updateMacro_macros id updates s :
  macros (updateMacro id updates s)
  = List.map (fun m => if String.eqb (Macro.id m) id then assign m updates else m) (macros s).
Proof. unfold updateMacro. apply setMacros_frame. Qed.

Lemma setMacros_fields v s :
  macros (setMacros v s) = v /\ selectedMacroId (setMacros v s) = selectedMacroId s /\
  editView (setMacros v s) = editView s /\ showAiModal (setMacros v s) = showAiModal s /\
  aiPrompt (setMacros v s) = aiPrompt s /\ aiLoading (setMacros v s) = aiLoading s /\
  aiError (setMacros v s) = aiError s /\
  showManualImport (setMacros v s) = showManualImport s /\
  manualImportJson (setMacros v s) = manualImportJson s /\
  alerts (setMacros v s) = alerts s /\
  localStorage (setMacros v s) = match v with [] => localStorage s | _ :: _ => Some v end.
Proof. unfold setMacros. by destruct v. Qed.

Lemma assign_lists m mainActions releaseActions other :
  assign other
    {| PartialMacro.id := None; PartialMacro.name := None;
       PartialMacro.triggerKey := None; PartialMacro.loopMode := None;
       PartialMacro.actions := Some (Macro.actions m ++ mainActions)%list;
       PartialMacro.releaseActions := Some (Macro.releaseActions m ++ releaseActions)%list |}
  = {| Macro.id := Macro.id other; Macro.name := Macro.name other;
       Macro.triggerKey := Macro.triggerKey other; Macro.loopMode := Macro.loopMode other;
       Macro.actions := (Macro.actions m ++ mainActions)%list;
       Macro.releaseActions := (Macro.releaseActions m ++ releaseActions)%list |}.
Proof. reflexivity. Qed.

(** What [handleAiGenerate] does once the gateway has returned. *)
Lemma handleAiGenerate_success host calls s sc selected macro mainActions releaseActions calls' :
  generateMacroFromPrompt host (aiPrompt s) calls
    = Ok ((mainActions, releaseActions), calls') ->
  selectedMacroId s = Some (String sc selected) ->
  find_macro (String sc selected) (macros s) = Some macro ->
  handleAiGenerate host calls s
  = setAiLoading false
      ((if (length mainActions =? 0)%nat && (0 <? length releaseActions)%nat
        then setEditView Release else setEditView Main)
         (setAiPrompt ""
            (setShowAiModal false
               (updateMacro (String sc selected)
                  {| PartialMacro.id := None; PartialMacro.name := None;
                     PartialMacro.triggerKey := None; PartialMacro.loopMode := None;
                     PartialMacro.actions := Some (Macro.actions macro ++ mainActions)%list;
                     PartialMacro.releaseActions :=
                       Some (Macro.releaseActions macro ++ releaseActions)%list |}
                  (setAiError None (setAiLoading true s)))))).
Proof.
  intros Hgen Hsel Hfind. unfold handleAiGenerate.
  assert (exists kc key, API_KEY host = Some (String kc key)) as (kc & key & ->).
  { unfold generateMacroFromPrompt in Hgen.
    destruct (API_KEY host) as [[|kc key]|]; try discriminate. by exists kc, key. }
  rewrite Hsel. cbn [aiPrompt setAiError setAiLoading macros]. rewrite Hgen.
  unfold find_macro in Hfind. rewrite Hfind.
  by destruct ((length mainActions =? 0)%nat && (0 <? length releaseActions)%nat).
Qed.

(** X13: a successful generation appends.  With distinct macro ids, when
    the gateway returns and the selected macro exists, the collection is the
    old one with the generated main and release actions appended to the
    lists of the selected macro and nothing else changed; it is stored; the
    dialog closes, the prompt is cleared, no error is shown, and the view
    switches to the release list exactly when only release actions came. *)
Theorem generation_appends host calls s selected macro mainActions releaseActions calls' :
  generateMacroFromPrompt host (aiPrompt s) calls
    = Ok ((mainActions, releaseActions), calls') ->
  selectedMacroId s = Some selected -> selected <> "" ->
  find_macro selected (macros s) = Some macro ->
  NoDup (List.map Macro.id (macros s)) ->
  macros (handleAiGenerate host calls s)
    = on_macro selected (appended mainActions releaseActions) (macros s)
  /\ localStorage (handleAiGenerate host calls s)
     = Some (macros (handleAiGenerate host calls s))
  /\ selectedMacroId (handleAiGenerate host calls s) = Some selected
  /\ showAiModal (handleAiGenerate host calls s) = false
  /\ aiPrompt (handleAiGenerate host calls s) = ""
  /\ aiError (handleAiGenerate host calls s) = None
  /\ aiLoading (handleAiGenerate host calls s) = false
  /\ editView (handleAiGenerate host calls s)
     = match mainActions, releaseActions with
       | [], _ :: _ => Release
       | _, _ => Main
       end.
Proof.
  intros Hgen Hsel Hne Hfind Hnd. destruct selected as [|sc selected]; [done|].
  rewrite (handleAiGenerate_success _ _ _ _ _ _ _ _ _ Hgen Hsel Hfind).
  set (updates := PartialMacro.mk _ _ _ _ _ _).
  set (s0 := setAiError None (setAiLoading true s)).
  assert (macros (updateMacro (String sc selected) updates s0)
          = on_macro (String sc selected) (appended mainActions releaseActions) (macros s))
    as Hmacros.
  { rewrite updateMacro_macros. unfold on_macro. apply map_ext_in. intros m Hin.
    destruct (String.eqb (Macro.id m) (String sc selected)) eqn:Hid; [|done].
    apply list_elem_of_In in Hin.
    rewrite (find_unique _ _ macro m Hnd Hfind Hin Hid). reflexivity. }
  assert (macros s <> []) as Hnonempty.
  { intros E. unfold find_macro in Hfind. by rewrite E in Hfind. }
  assert (selectedMacroId (updateMacro (String sc selected) updates s0)
          = Some (String sc selected)
          /\ localStorage (updateMacro (String sc selected) updates s0)
             = Some (macros (updateMacro (String sc selected) updates s0))
          /\ aiError (updateMacro (String sc selected) updates s0) = None)
    as (Hs & Hst & Herr).
  { rewrite updateMacro_macros. unfold updateMacro.
    match goal with |- context [setMacros ?v s0] =>
      destruct (setMacros_fields v s0) as (_ & Hs & _ & _ & _ & _ & He & _ & _ & _ & Hst)
    end.
    rewrite Hs, Hst, He. split; [exact Hsel|]. split; [|reflexivity].
    cbn [s0 macros setAiError setAiLoading].
    destruct (macros s) as [|m0 ms]; [done|]. reflexivity. }
  set (s1 := updateMacro (String sc selected) updates s0) in *.
  assert (editView
            ((if (length mainActions =? 0)%nat && (0 <? length releaseActions)%nat
              then setEditView Release else setEditView Main)
               (setAiPrompt "" (setShowAiModal false s1)))
          = match mainActions, releaseActions with
            | [], _ :: _ => Release
            | _, _ => Main
            end) as Hview.
  { by destruct mainActions, releaseActions. }
  destruct ((length mainActions =? 0)%nat && (0 <? length releaseActions)%nat);
    cbn [macros localStorage selectedMacroId showAiModal aiPrompt aiError aiLoading
           editView setAiLoading setEditView setAiPrompt setShowAiModal] in *;
    rewrite Hst; repeat split; try done.
Qed.


Lemma generation_appends_witness :
  let mainActions :=
    match generateMacroFromPrompt answering_host (aiPrompt sample_app) 0%nat with
    | Ok ((mainActions, _), _) => mainActions
    | Throw _ => []
    end in
  let releaseActions :=
    match generateMacroFromPrompt answering_host (aiPrompt sample_app) 0%nat with
    | Ok ((_, releaseActions), _) => releaseActions
    | Throw _ => []
    end in
  macros (handleAiGenerate answering_host 0 sample_app)
    = on_macro "default-1" (appended mainActions releaseActions) (macros sample_app)
  /\ localStorage (handleAiGenerate answering_host 0 sample_app)
     = Some (macros (handleAiGenerate answering_host 0 sample_app))
  /\ selectedMacroId (handleAiGenerate answering_host 0 sample_app) = Some "default-1"
  /\ showAiModal (handleAiGenerate answering_host 0 sample_app) = false
  /\ aiPrompt (handleAiGenerate answering_host 0 sample_app) = ""
  /\ aiError (handleAiGenerate answering_host 0 sample_app) = None
  /\ aiLoading (handleAiGenerate answering_host 0 sample_app) = false
  /\ editView (handleAiGenerate answering_host 0 sample_app) = Main.
Proof.
  intros mainActions releaseActions.
  apply (generation_appends answering_host 0%nat sample_app "default-1" DEFAULT_MACRO
           mainActions releaseActions 4%nat).
  - reflexivity.
  - reflexivity.
  - discriminate.
  - reflexivity.
  - apply NoDup_singleton.
Defined.
